(** * The Vimeo HLS player widget: a shallow embedding and its properties

    The development follows the four source files of the widget:
    - [vimeo.js]    ([VimeoAPI]):       identifier extraction, resolution calls;
    - [player.js]   ([HLSPlayer]):      the adapter around the streaming engine
                                        and the media element;
    - [controls.js] ([VideoControls]):  the control overlay;
    - [index.js]    ([VimeoHLSPlayer]): the facade.

    JavaScript values are modelled as the code uses them: numbers as canonical
    rationals extended with [NaN] and the two infinities, strings as
    [string], the listener registry as an object with own properties (a
    [gmap]) in front of [Object.prototype], effects as a state-and-exception
    monad over the player state and a trace of external calls. *)

From Stdlib Require Import ZArith QArith Qcanon Qround List Ascii String Lia.
From stdpp Require Import base decidable option numbers list strings gmap pretty.

Local Open Scope string_scope.
Local Open Scope Z_scope.

(* ===================================================================== *)
(** * JavaScript strings *)
(* ===================================================================== *)

Module Str.

(** [\d] without the [u] flag: the ASCII digits only. *)
Definition is_digit (c : ascii) : bool :=
  ((48 <=? nat_of_ascii c)%nat && (nat_of_ascii c <=? 57)%nat)%bool.

Fixpoint all_digits (s : string) : bool :=
  match s with
  | EmptyString => true
  | String c r => is_digit c && all_digits r
  end.

(** The longest run of digits at the start of [s]: what a greedy [\d*]
    consumes there. *)
Fixpoint take_digits (s : string) : string :=
  match s with
  | EmptyString => EmptyString
  | String c r => if is_digit c then String c (take_digits r) else EmptyString
  end.

(** [strip_prefix p s] is [Some r] when [s = p ++ r]. *)
Fixpoint strip_prefix (p s : string) : option string :=
  match p, s with
  | EmptyString, _ => Some s
  | String a p', String b s' =>
      if Ascii.eqb a b then strip_prefix p' s' else None
  | String _ _, EmptyString => None
  end.

(** [s.split(sep)] for a one-character separator. *)
Fixpoint split_on (sep : ascii) (s : string) : list string :=
  match s with
  | EmptyString => [EmptyString]
  | String c r =>
      if Ascii.eqb c sep then EmptyString :: split_on sep r
      else match split_on sep r with
           | [] => [String c EmptyString]
           | w :: ws => String c w :: ws
           end
  end.

Fixpoint has_char (x : ascii) (s : string) : bool :=
  match s with
  | EmptyString => false
  | String c r => Ascii.eqb c x || has_char x r
  end.

Fixpoint repeat_to (fill : string) (cur : string) (n : nat) : string :=
  match n with
  | O => EmptyString
  | S n' =>
      match cur with
      | String c r => String c (repeat_to fill r n')
      | EmptyString =>
          match fill with
          | EmptyString => EmptyString
          | String c r => String c (repeat_to fill r n')
          end
      end
  end.

(** [s.padStart(n, fill)]: [s] itself when it is long enough or the filler
    is empty, else the filler repeated and cut to the missing length, then
    [s]. *)
Definition padStart (n : nat) (fill : string) (s : string) : string :=
  if (n <=? String.length s)%nat then s
  else repeat_to fill fill (n - String.length s) +:+ s.

End Str.

(* ===================================================================== *)
(** * JavaScript numbers *)
(* ===================================================================== *)

(** A number is [NaN], an infinity or a finite value. Finite values are
    canonical rationals (every binary64 value is one), so that two equal
    numbers are the same term. The model has one zero, the positive one,
    and computes [/] and [*] without rounding; [%], [Math.floor],
    [Math.min], [Math.max] and the comparisons are exact in JavaScript
    too. *)
Inductive number : Type :=
| NaN
| PosInf
| NegInf
| Fin (q : Qc).

Module Num.

Definition of_Z (n : Z) : number := Fin (Qc_of_Z n).

Definition isNaN (x : number) : bool :=
  match x with NaN => true | _ => false end.

(** [x < y] of JavaScript: false as soon as one side is [NaN]. *)
Definition lt (x y : number) : bool :=
  match x, y with
  | NaN, _ | _, NaN => false
  | _, NegInf => false
  | PosInf, _ => false
  | NegInf, _ => true
  | Fin _, PosInf => true
  | Fin a, Fin b => bool_decide (a < b)%Qc
  end.

(** [x > y] *)
Definition gt (x y : number) : bool := lt y x.

Definition neg (x : number) : number :=
  match x with
  | NaN => NaN
  | PosInf => NegInf
  | NegInf => PosInf
  | Fin q => Fin (- q)%Qc
  end.

(** [Math.floor] *)
Definition floor (x : number) : number :=
  match x with
  | Fin q => of_Z (Qfloor q)
  | other => other
  end.

(** Rounding toward zero, the integer quotient [%] is defined with. *)
Definition trunc (q : Qc) : Z := Z.quot (Qnum q) (Zpos (Qden q)).

(** [x / y] *)
Definition div (x y : number) : number :=
  match x, y with
  | NaN, _ | _, NaN => NaN
  | (PosInf | NegInf), (PosInf | NegInf) => NaN
  | PosInf, Fin d => if bool_decide (d < 0)%Qc then NegInf else PosInf
  | NegInf, Fin d => if bool_decide (d < 0)%Qc then PosInf else NegInf
  | Fin _, (PosInf | NegInf) => Fin 0%Qc
  | Fin n, Fin d =>
      if bool_decide (d = 0%Qc) then
        if bool_decide (n = 0%Qc) then NaN
        else if bool_decide (n < 0)%Qc then NegInf else PosInf
      else Fin (n / d)%Qc
  end.

(** [x * y] *)
Definition mul (x y : number) : number :=
  match x, y with
  | NaN, _ | _, NaN => NaN
  | Fin a, Fin b => Fin (a * b)%Qc
  | Fin a, inf | inf, Fin a =>
      if bool_decide (a = 0%Qc) then NaN
      else if bool_decide (a < 0)%Qc then neg inf else inf
  | PosInf, PosInf | NegInf, NegInf => PosInf
  | PosInf, NegInf | NegInf, PosInf => NegInf
  end.

(** [x % y]: the remainder has the sign of the dividend. *)
Definition rem (x y : number) : number :=
  match x, y with
  | Fin n, Fin d =>
      if bool_decide (d = 0%Qc) then NaN
      else Fin (n - d * Qc_of_Z (trunc (n / d)))%Qc
  | Fin n, (PosInf | NegInf) => Fin n
  | _, _ => NaN
  end.

(** [Math.min(x, y)] and [Math.max(x, y)] *)
Definition min (x y : number) : number :=
  if isNaN x || isNaN y then NaN else if lt y x then y else x.

Definition max (x y : number) : number :=
  if isNaN x || isNaN y then NaN else if lt x y then y else x.

(** Whether a finite value is an integer below [10^21] in magnitude: the
    numbers [toString] writes as plain decimal digits. *)
Definition plain_integer (q : Qc) : bool :=
  bool_decide (Qden q = 1%positive) && (Z.abs (Qnum q) <? 10 ^ 21).

(** [x.toString()], which is also what a template literal inserts. The
    digits of a value that is not a plain integer are those of its binary64
    representation; [frac] stands for that part of the conversion. *)
Definition toString (frac : Qc → string) (x : number) : string :=
  match x with
  | NaN => "NaN"
  | PosInf => "Infinity"
  | NegInf => "-Infinity"
  | Fin q => if plain_integer q then pretty (Qnum q) else frac q
  end.

End Num.

(* ===================================================================== *)
(** * controls.js: [VideoControls.formatTime] *)
(* ===================================================================== *)

Module VideoControls.

Section FormatTime.
Variable frac : Qc → string.

Definition formatTime (seconds : number) : string :=
  if Num.isNaN seconds then "0:00"
  else
    let h := Num.floor (Num.div seconds (Num.of_Z 3600)) in
    let m := Num.floor (Num.div (Num.rem seconds (Num.of_Z 3600)) (Num.of_Z 60)) in
    let s := Num.floor (Num.rem seconds (Num.of_Z 60)) in
    if Num.gt h (Num.of_Z 0) then
      Num.toString frac h +:+ ":" +:+
      Str.padStart 2 "0" (Num.toString frac m) +:+ ":" +:+
      Str.padStart 2 "0" (Num.toString frac s)
    else
      Num.toString frac m +:+ ":" +:+ Str.padStart 2 "0" (Num.toString frac s).

End FormatTime.

End VideoControls.

(* ===================================================================== *)
(** * Values, effects and the monad of the stateful code *)
(* ===================================================================== *)

(** An argument that is a string, [null] or [undefined]. *)
Inductive jsval : Type :=
| Null
| Undefined
| Str (s : string).

(** [!!v] *)
Definition truthy (v : jsval) : bool :=
  match v with
  | Str (String _ _) => true
  | _ => false
  end.

(** The string a value is used as in a template literal or as a URL. *)
Definition string_of (v : jsval) : string :=
  match v with
  | Null => "null"
  | Undefined => "undefined"
  | Str s => s
  end.

(** Listener functions are compared by identity ([cb !== callback]): user
    callbacks carry an identifier, the closures the overlay and the facade
    create are named after what they do. *)
Inductive callback : Type :=
| UserCb (id : nat)
| UpdatePlayButton (isPlaying : bool)
| UpdateProgress
| UpdateDuration
| StartAutoHide
| StopAutoHide
| RemoveLoading
| ShowLoadError.

Global Instance callback_eq_dec : EqDecision callback.
Proof. solve_decision. Defined.

(** [Hls.ErrorTypes] of the streaming engine. *)
Inductive ErrorTypes : Type :=
| NETWORK_ERROR
| MEDIA_ERROR
| KEY_SYSTEM_ERROR
| MUX_ERROR
| OTHER_ERROR.

Record ErrorData : Type := { fatal : bool; type : ErrorTypes }.

(** [Hls.Events] the adapter subscribes to. *)
Inductive Events : Type := MANIFEST_PARSED | ERROR.

(** What a listener receives. *)
Inductive payload : Type :=
| NativeEvent (name : string)
| EngineError (data : ErrorData)
| ErrorObject (message : string).

(** Calls that leave the program: console, engine, media playback, network
    and the listeners. *)
Inductive effect : Type :=
| ConsoleLog (msg : string)
| ConsoleError (msg : string)
| HlsNew (engine : nat)
| HlsLoadSource (engine : nat) (url : string)
| HlsAttachMedia (engine : nat)
| HlsOn (engine : nat) (ev : Events)
| HlsStartLoad (engine : nat)
| HlsRecoverMediaError (engine : nat)
| HlsDestroy (engine : nat)
| VideoPlay
| VideoPause
| Fetch (url : string) (authorization : option string)
| Call (cb : callback) (data : payload).

Inductive exn : Type :=
| TypeError (message : string)
| Error (message : string).

Definition message_of (e : exn) : string :=
  match e with TypeError m | Error m => m end.

(** What the browser, the engine, the network and the listeners decide. *)
Record Host : Type := {
  (** digits of a number that is not a plain integer *)
  frac_toString : Qc → string;
  (** [Number(s)] for a string that is not a run of decimal digits *)
  string_to_number : string → number;
  (** [Hls.isSupported()] *)
  Hls_isSupported : bool;
  (** whether [video.canPlayType('application/vnd.apple.mpegurl')] is truthy *)
  canPlayType_hls : bool;
  (** the message [video.play()] rejects with, if it does *)
  video_play_rejects : option string;
  (** the message of what a listener throws, if it does *)
  listener_throws : callback → payload → option string;
  (** player page of a video: the HLS URL found in its configuration, or
      the message of the failure (network, markup, JSON, missing field) *)
  player_page : string → string + string;
  (** authenticated metadata of a video: the link of the file tagged
      [hls] when the request succeeds, or the message of the failure *)
  api_video : string → string → option string + string
}.

Inductive outcome (A : Type) : Type :=
| Ok (a : A)
| Throw (e : exn).
Arguments Ok {A} a.
Arguments Throw {A} e.

(** A computation over a state [S] that returns or throws; the state
    reached when it throws is kept, as in JavaScript. *)
Definition M (S A : Type) : Type := S → outcome A * S.

Definition ret {S A} (a : A) : M S A := λ s, (Ok a, s).
Definition throw {S A} (e : exn) : M S A := λ s, (Throw e, s).
Definition bind {S A B} (m : M S A) (k : A → M S B) : M S B :=
  λ s, match m s with
       | (Ok a, s') => k a s'
       | (Throw e, s') => (Throw e, s')
       end.
Definition try_catch {S A} (m : M S A) (h : exn → M S A) : M S A :=
  λ s, match m s with
       | (Ok a, s') => (Ok a, s')
       | (Throw e, s') => h e s'
       end.
Definition get {S} : M S S := λ s, (Ok s, s).
Definition modify {S} (f : S → S) : M S unit := λ s, (Ok tt, f s).

(** An [async] function called to completion: what it throws rejects the
    promise it returns and does not reach the caller. *)
Definition async {S A} (m : M S A) : M S (outcome A) :=
  λ s, match m s with
       | (r, s') => (Ok r, s')
       end.

(** [await p] *)
Definition await {S A} (p : M S (outcome A)) : M S A :=
  bind p (λ r, match r with Ok a => ret a | Throw e => throw e end).

Global Instance M_ret {S} : MRet (M S) := @ret S.
Global Instance M_bind {S} : MBind (M S) := λ A B k m, bind m k.

Definition forEach {S A} (f : A → M S unit) : list A → M S unit :=
  fix go l := match l with
              | [] => ret tt
              | a :: l' => f a ;; go l'
              end.

(* ===================================================================== *)
(** * vimeo.js: [VimeoAPI] *)
(* ===================================================================== *)

Module VimeoAPI.
Import Str.

(** One attempt of a pattern [lit(\d+)] at the start of [s]: the literal,
    then at least one digit, as many as there are; the result is the
    captured group. *)
Definition match_here (lit s : string) : option string :=
  match strip_prefix lit s with
  | Some r =>
      match take_digits r with
      | EmptyString => None
      | d => Some d
      end
  | None => None
  end.

(** [url.match(/lit(\d+)/)] for an unanchored pattern without flags: the
    start positions are tried from left to right and the first success
    wins; the value is [match[1]]. *)
Fixpoint regex_match (lit s : string) : option string :=
  match match_here lit s with
  | Some d => Some d
  | None =>
      match s with
      | EmptyString => None
      | String _ r => regex_match lit r
      end
  end.

(** The literal parts of the three patterns
    [/vimeo\.com\/(\d+)/], [/vimeo\.com\/video\/(\d+)/],
    [/player\.vimeo\.com\/video\/(\d+)/], in the order of the array. *)
Definition patterns : list string :=
  [ "vimeo.com/"; "vimeo.com/video/"; "player.vimeo.com/video/" ].

(** The [for (const pattern of patterns)] loop. *)
Fixpoint first_match (ps : list string) (url : string) : option string :=
  match ps with
  | [] => None
  | p :: ps' =>
      match regex_match p url with
      | Some d => Some d
      | None => first_match ps' url
      end
  end.

(** [/^\d+$/.test(url)] *)
Definition numeric (url : string) : bool :=
  match url with
  | EmptyString => false
  | _ => all_digits url
  end.

(** [extractVideoId(url)]; [None] is JavaScript's [null]. *)
Definition extractVideoId (url : string) : option string :=
  match first_match patterns url with
  | Some d => Some d
  | None => if numeric url then Some url else None
  end.

(** The two resolution calls are static and touch no state of the widget:
    each is given as the calls it makes and what it returns or throws.

    [getHLSFromPlayer(videoId)], in the version that returns the URL itself,
    which is how the facade uses it. Fetching the page, finding the
    configuration in the markup, parsing it and reading the nested field
    are the host's; a missing or empty URL throws. *)
Definition getHLSFromPlayer (host : Host) (videoId : string)
  : list effect * outcome string :=
  let embedUrl := "https://player.vimeo.com/video/" +:+ videoId in
  match player_page host embedUrl with
  | inl (String c r) => ([Fetch embedUrl None], Ok (String c r))
  | inl EmptyString =>
      ([Fetch embedUrl None; ConsoleError "Error getting HLS from player:"],
       Throw (Error "Could not extract HLS URL from player"))
  | inr m =>
      ([Fetch embedUrl None; ConsoleError "Error getting HLS from player:"],
       Throw (Error m))
  end.

(** [getVideoData(videoId, accessToken)], of which the facade reads the
    field [hlsUrl]: the link of the file whose quality is [hls], or
    [undefined]. *)
Definition getVideoData (host : Host) (videoId : string) (accessToken : jsval)
  : list effect * outcome jsval :=
  let authorization :=
    if truthy accessToken then Some ("Bearer " +:+ string_of accessToken) else None in
  let apiUrl := "https://api.vimeo.com/videos/" +:+ videoId in
  match api_video host apiUrl (string_of accessToken) with
  | inl (Some link) => ([Fetch apiUrl authorization], Ok (Str link))
  | inl None => ([Fetch apiUrl authorization], Ok Undefined)
  | inr m =>
      ([Fetch apiUrl authorization; ConsoleError "Error fetching Vimeo video data:"],
       Throw (Error m))
  end.

End VimeoAPI.

(* ===================================================================== *)
(** * The listener registry as a JavaScript object *)
(* ===================================================================== *)

Module Registry.

(** The property names every object inherits from [Object.prototype]. *)
Definition object_prototype_names : list string :=
  [ "constructor"; "__defineGetter__"; "__defineSetter__"; "hasOwnProperty";
    "__lookupGetter__"; "__lookupSetter__"; "isPrototypeOf";
    "propertyIsEnumerable"; "toString"; "valueOf"; "__proto__";
    "toLocaleString" ].

(** The value of [this.listeners[event]]: an array of callbacks when
    [event] is an own property, else what the prototype chain gives, a
    function or an object that has no [push], [filter] or [forEach], and
    else [undefined]. *)
Inductive lookup_result : Type :=
| Missing
| Array (cbs : list callback)
| Inherited.

Definition lookup (o : gmap string (list callback)) (event : string) : lookup_result :=
  match o !! event with
  | Some cbs => Array cbs
  | None =>
      if bool_decide (event ∈ object_prototype_names) then Inherited
      else Missing
  end.

(** The object literal of the constructor. *)
Definition initial : gmap string (list callback) :=
  <["play" := []]> (<["pause" := []]> (<["ended" := []]> (<["timeupdate" := []]>
  (<["loadedmetadata" := []]> (<["error" := []]> ∅))))).

Definition predefined_keys : list string :=
  [ "play"; "pause"; "ended"; "timeupdate"; "loadedmetadata"; "error" ].

End Registry.

(* ===================================================================== *)
(** * player.js: [HLSPlayer] *)
(* ===================================================================== *)

(** Functions attached to the media element with [addEventListener]. *)
Inductive native_handler : Type :=
| Forward (event : string)
| AutoplayWhenLoaded
| ToggleOnClick.

(** The media element, as far as the widget reads and writes it. *)
Record Video : Type := {
  src : string;
  autoplay : bool;
  muted : bool;
  controls : bool;
  loop : bool;
  volume : number;
  currentTime : number;
  duration : number;
  paused : bool;
  poster : jsval;
  handlers : list native_handler
}.

Record Options : Type := {
  opt_autoplay : bool;
  opt_muted : bool;
  opt_controls : bool;
  opt_loop : bool
}.

(** The fields of an [HLSPlayer]; [hls] is the engine instance, if any. *)
Record HLSPlayer : Type := {
  video : Video;
  hls : option nat;
  options : Options;
  listeners : gmap string (list callback)
}.

(** The adapter's world: the object, the calls made so far, and the
    number of engines created. *)
Record World : Type := {
  self : HLSPlayer;
  out : list effect;
  engines : nat
}.

Module HLSPlayer.

Definition set_video (f : Video → Video) : M World unit :=
  modify (λ w, {| self := {| video := f (video (self w)); hls := hls (self w);
                              options := options (self w);
                              listeners := listeners (self w) |};
                  out := out w; engines := engines w |}).

Definition set_hls (h : option nat) : M World unit :=
  modify (λ w, {| self := {| video := video (self w); hls := h;
                              options := options (self w);
                              listeners := listeners (self w) |};
                  out := out w; engines := engines w |}).

Definition set_listeners (l : gmap string (list callback)) : M World unit :=
  modify (λ w, {| self := {| video := video (self w); hls := hls (self w);
                              options := options (self w);
                              listeners := l |};
                  out := out w; engines := engines w |}).

Definition tell (e : effect) : M World unit :=
  modify (λ w, {| self := self w; out := (out w ++ [e])%list; engines := engines w |}).

Definition with_src (s : string) (v : Video) : Video :=
  {| src := s; autoplay := autoplay v; muted := muted v; controls := controls v;
     loop := loop v; volume := volume v; currentTime := currentTime v;
     duration := duration v; paused := paused v; poster := poster v;
     handlers := handlers v |}.

Definition with_volume (x : number) (v : Video) : Video :=
  {| src := src v; autoplay := autoplay v; muted := muted v; controls := controls v;
     loop := loop v; volume := x; currentTime := currentTime v;
     duration := duration v; paused := paused v; poster := poster v;
     handlers := handlers v |}.

Definition with_muted (b : bool) (v : Video) : Video :=
  {| src := src v; autoplay := autoplay v; muted := b; controls := controls v;
     loop := loop v; volume := volume v; currentTime := currentTime v;
     duration := duration v; paused := paused v; poster := poster v;
     handlers := handlers v |}.

Definition with_currentTime (x : number) (v : Video) : Video :=
  {| src := src v; autoplay := autoplay v; muted := muted v; controls := controls v;
     loop := loop v; volume := volume v; currentTime := x;
     duration := duration v; paused := paused v; poster := poster v;
     handlers := handlers v |}.

Definition with_paused (b : bool) (v : Video) : Video :=
  {| src := src v; autoplay := autoplay v; muted := muted v; controls := controls v;
     loop := loop v; volume := volume v; currentTime := currentTime v;
     duration := duration v; paused := b; poster := poster v;
     handlers := handlers v |}.

Definition add_handler (h : native_handler) (v : Video) : Video :=
  {| src := src v; autoplay := autoplay v; muted := muted v; controls := controls v;
     loop := loop v; volume := volume v; currentTime := currentTime v;
     duration := duration v; paused := paused v; poster := poster v;
     handlers := (handlers v ++ [h])%list |}.

Section Methods.
Variable host : Host.

(** A listener is called: it returns, or throws. *)
Definition call (data : payload) (cb : callback) : M World unit :=
  tell (Call cb data) ;;
  match listener_throws host cb data with
  | Some m => throw (Error m)
  | None => ret tt
  end.

Definition on (event : string) (cb : callback) : M World unit :=
  w ← get ;
  match Registry.lookup (listeners (self w)) event with
  | Registry.Missing => ret tt
  | Registry.Array cbs => set_listeners (<[event := (cbs ++ [cb])%list]> (listeners (self w)))
  | Registry.Inherited => throw (TypeError "this.listeners[event].push is not a function")
  end.

Definition off (event : string) (cb : callback) : M World unit :=
  w ← get ;
  match Registry.lookup (listeners (self w)) event with
  | Registry.Missing => ret tt
  | Registry.Array cbs =>
      set_listeners (<[event := filter (λ c, c ≠ cb) cbs]> (listeners (self w)))
  | Registry.Inherited => throw (TypeError "this.listeners[event].filter is not a function")
  end.

Definition emit (event : string) (data : payload) : M World unit :=
  w ← get ;
  match Registry.lookup (listeners (self w)) event with
  | Registry.Missing => ret tt
  | Registry.Array cbs => forEach (call data) cbs
  | Registry.Inherited => throw (TypeError "this.listeners[event].forEach is not a function")
  end.

Definition destroy : M World unit :=
  w ← get ;
  match hls (self w) with
  | Some e => tell (HlsDestroy e) ;; set_hls None
  | None => ret tt
  end ;;
  set_video (with_src "") ;;
  set_listeners ∅.

(** [async play()] *)
Definition play : M World (outcome unit) :=
  async (tell VideoPlay ;;
         match video_play_rejects host with
         | None => set_video (with_paused false)
         | Some m =>
             tell (ConsoleError "Error playing video:") ;;
             emit "error" (ErrorObject m)
         end).

Definition pause : M World unit :=
  tell VideoPause ;; set_video (with_paused true).

Definition togglePlay : M World unit :=
  w ← get ;
  if paused (video (self w)) then play ;; ret tt else pause.

Definition setVolume (v : number) : M World unit :=
  set_video (with_volume (Num.max (Num.of_Z 0) (Num.min (Num.of_Z 1) v))).

Definition getVolume : M World number :=
  w ← get ; ret (volume (video (self w))).

Definition toggleMute : M World bool :=
  w ← get ;
  set_video (with_muted (negb (muted (video (self w))))) ;;
  ret (negb (muted (video (self w)))).

Definition seek (time : number) : M World unit :=
  set_video (with_currentTime time).

Definition getCurrentTime : M World number :=
  w ← get ; ret (currentTime (video (self w))).

Definition getDuration : M World number :=
  w ← get ; ret (duration (video (self w))).

(** A method call on [this.hls], which throws when it is [null]. *)
Definition on_engine (f : nat → effect) : M World unit :=
  w ← get ;
  match hls (self w) with
  | Some e => tell (f e)
  | None => throw (TypeError "Cannot read properties of null")
  end.

(** The function subscribed to [Hls.Events.MANIFEST_PARSED]. *)
Definition on_manifest_parsed : M World unit :=
  tell (ConsoleLog "HLS manifest loaded") ;;
  w ← get ;
  if opt_autoplay (options (self w)) then play ;; ret tt else ret tt.

(** The function subscribed to [Hls.Events.ERROR]. *)
Definition on_error (data : ErrorData) : M World unit :=
  tell (ConsoleError "HLS error:") ;;
  (if fatal data then
     match type data with
     | NETWORK_ERROR =>
         tell (ConsoleError "Fatal network error, trying to recover") ;;
         on_engine HlsStartLoad
     | MEDIA_ERROR =>
         tell (ConsoleError "Fatal media error, trying to recover") ;;
         on_engine HlsRecoverMediaError
     | _ =>
         tell (ConsoleError "Fatal error, cannot recover") ;;
         destroy
     end
   else ret tt) ;;
  emit "error" (EngineError data).

Definition new_engine : M World nat :=
  w ← get ;
  modify (λ w, {| self := self w; out := out w; engines := S (engines w) |}) ;;
  tell (HlsNew (engines w)) ;;
  ret (engines w).

Definition loadSource (hlsUrl : jsval) : M World unit :=
  if negb (truthy hlsUrl) then tell (ConsoleError "No HLS URL provided")
  else if Hls_isSupported host then
    e ← new_engine ;
    set_hls (Some e) ;;
    tell (HlsLoadSource e (string_of hlsUrl)) ;;
    tell (HlsAttachMedia e) ;;
    tell (HlsOn e MANIFEST_PARSED) ;;
    tell (HlsOn e ERROR)
  else if canPlayType_hls host then
    set_video (with_src (string_of hlsUrl)) ;;
    set_video (add_handler AutoplayWhenLoaded)
  else
    tell (ConsoleError "HLS is not supported in this browser") ;;
    emit "error" (ErrorObject "HLS not supported").

(** The constructor: the fields, then [initialize], which copies the four
    options to the element and attaches the six forwarding handlers. *)
Definition construct (videoElement : Video) (o : Options) : HLSPlayer :=
  {| video :=
       {| src := src videoElement;
          autoplay := opt_autoplay o; muted := opt_muted o;
          controls := opt_controls o; loop := opt_loop o;
          volume := volume videoElement; currentTime := currentTime videoElement;
          duration := duration videoElement; paused := paused videoElement;
          poster := poster videoElement;
          handlers := (handlers videoElement ++ map Forward Registry.predefined_keys)%list |};
     hls := None;
     options := o;
     listeners := Registry.initial |}.

End Methods.
End HLSPlayer.

(* ===================================================================== *)
(** * index.js: [VimeoHLSPlayer], with the overlay it creates *)
(* ===================================================================== *)

(** Children the widget appends to its container. *)
Inductive node : Type :=
| VideoElement
| ControlsElement
| ErrorElement (title message : string).

Global Instance node_eq_dec : EqDecision node.
Proof. solve_decision. Defined.

Record Container : Type := {
  classList : list string;
  paddingTop : option string;
  position : option string;
  height : option string;
  children : list node
}.

Record PlaybackOptions : Type := {
  vimeoId : jsval;
  hlsUrl : jsval;
  vimeoAccessToken : jsval;
  po_autoplay : bool;
  po_muted : bool;
  po_controls : bool;
  aspectRatio : jsval;
  po_poster : jsval
}.

(** The fields of a [VideoControls] that change: the pending auto-hide
    timer. Its element is the [ControlsElement] child of the container. *)
Record Overlay : Type := { hideTimeout : bool }.

(** The facade and the page around it. [videoElement] tells whether the
    field is set; the element itself is [video] of the player, the same
    object. *)
Record Page : Type := {
  container : Container;
  settings : PlaybackOptions;
  player : option HLSPlayer;
  overlay : option Overlay;
  videoElement : bool;
  log : list effect;
  made : nat
}.

Module VimeoHLSPlayer.

Definition set_container (f : Container → Container) : M Page unit :=
  modify (λ p, {| container := f (container p); settings := settings p;
                  player := player p; overlay := overlay p;
                  videoElement := videoElement p; log := log p; made := made p |}).

Definition set_player (pl : option HLSPlayer) : M Page unit :=
  modify (λ p, {| container := container p; settings := settings p;
                  player := pl; overlay := overlay p;
                  videoElement := videoElement p; log := log p; made := made p |}).

Definition set_overlay (o : option Overlay) : M Page unit :=
  modify (λ p, {| container := container p; settings := settings p;
                  player := player p; overlay := o;
                  videoElement := videoElement p; log := log p; made := made p |}).

Definition set_videoElement (b : bool) : M Page unit :=
  modify (λ p, {| container := container p; settings := settings p;
                  player := player p; overlay := overlay p;
                  videoElement := b; log := log p; made := made p |}).

Definition tell_all (es : list effect) : M Page unit :=
  modify (λ p, {| container := container p; settings := settings p;
                  player := player p; overlay := overlay p;
                  videoElement := videoElement p; log := (log p ++ es)%list;
                  made := made p |}).

(** A method call on [this.player]: it throws when the field is [null],
    and else runs on the adapter with the page's log. *)
Definition on_player {A} (m : M World A) : M Page A :=
  λ p, match player p with
       | None => (Throw (TypeError "Cannot read properties of null"), p)
       | Some pl =>
           match m {| self := pl; out := log p; engines := made p |} with
           | (r, w) =>
               (r, {| container := container p; settings := settings p;
                      player := Some (self w); overlay := overlay p;
                      videoElement := videoElement p; log := out w;
                      made := engines w |})
           end
       end.

(** A static call of [VimeoAPI]. *)
Definition static {A} (c : list effect * outcome A) : M Page A :=
  tell_all (fst c) ;;
  match snd c with
  | Ok a => ret a
  | Throw e => throw e
  end.

Definition classList_add (c : string) (k : Container) : Container :=
  {| classList := if bool_decide (c ∈ classList k) then classList k
                  else (classList k ++ [c])%list;
     paddingTop := paddingTop k; position := position k; height := height k;
     children := children k |}.

Definition classList_remove (c : string) (k : Container) : Container :=
  {| classList := filter (λ x, x ≠ c) (classList k);
     paddingTop := paddingTop k; position := position k; height := height k;
     children := children k |}.

Definition appendChild (n : node) (k : Container) : Container :=
  {| classList := classList k;
     paddingTop := paddingTop k; position := position k; height := height k;
     children := (children k ++ [n])%list |}.

(** [element.remove()]: the element leaves its parent; nothing happens
    when it has none. *)
Definition remove_child (n : node) (k : Container) : Container :=
  {| classList := classList k;
     paddingTop := paddingTop k; position := position k; height := height k;
     children := filter (λ x, x ≠ n) (children k) |}.

Definition aspect_box (padding : string) (k : Container) : Container :=
  {| classList := classList k;
     paddingTop := Some padding; position := Some "relative"; height := Some "0";
     children := children k |}.

(** The value of a run of decimal digits. *)
Definition digits_value (s : string) : Z :=
  (fix go (acc : Z) (s : string) : Z :=
     match s with
     | EmptyString => acc
     | String c r => go (10 * acc + (Z.of_nat (nat_of_ascii c) - 48)) r
     end) 0 s.

(** [a || b] where [a] is a string or [null]. *)
Definition or_else (a : option string) (b : string) : string :=
  match a with
  | Some (String c r) => String c r
  | _ => b
  end.

Section Methods.
Variable host : Host.

(** [Number(s)]: a run of decimal digits is read as written, any other
    string as the host says. *)
Definition Number (s : string) : number :=
  if VimeoAPI.numeric s then Num.of_Z (digits_value s) else string_to_number host s.

(** The elements of [parts.map(Number)] at index 0 and 1; a missing element
    is [undefined], which is [NaN] in arithmetic. *)
Definition nth_number (parts : list string) (i : nat) : number :=
  match parts !! i with
  | Some s => Number s
  | None => NaN
  end.

Definition setupContainer : M Page unit :=
  set_container (classList_add "vimeo-hls-player") ;;
  p ← get ;
  if truthy (aspectRatio (settings p)) then
    let parts := Str.split_on ":" (string_of (aspectRatio (settings p))) in
    let width := nth_number parts 0 in
    let height := nth_number parts 1 in
    let paddingTop := Num.mul (Num.div height width) (Num.of_Z 100) in
    set_container (aspect_box (Num.toString (frac_toString host) paddingTop +:+ "%"))
  else ret tt.

(** The new element, its poster set when the option is truthy. *)
Definition createVideoElement : M Page Video :=
  p ← get ;
  set_videoElement true ;;
  set_container (appendChild VideoElement) ;;
  ret {| src := ""; autoplay := false; muted := false; controls := false;
         loop := false; volume := Num.of_Z 1; currentTime := Num.of_Z 0;
         duration := NaN; paused := true;
         poster := if truthy (po_poster (settings p)) then po_poster (settings p)
                   else Str "";
         handlers := [] |}.

(** [new VideoControls(player, container)]: the element is appended, then
    the listeners are attached, those on the adapter in this order. *)
Definition new_VideoControls : M Page unit :=
  set_container (appendChild ControlsElement) ;;
  on_player (HLSPlayer.set_video (HLSPlayer.add_handler ToggleOnClick)) ;;
  on_player (HLSPlayer.on "play" (UpdatePlayButton true)) ;;
  on_player (HLSPlayer.on "pause" (UpdatePlayButton false)) ;;
  on_player (HLSPlayer.on "ended" (UpdatePlayButton false)) ;;
  on_player (HLSPlayer.on "timeupdate" UpdateProgress) ;;
  on_player (HLSPlayer.on "loadedmetadata" UpdateDuration) ;;
  on_player (HLSPlayer.on "play" StartAutoHide) ;;
  on_player (HLSPlayer.on "pause" StopAutoHide) ;;
  set_overlay (Some {| hideTimeout := false |}).

(** [VideoControls.destroy()] *)
Definition controls_destroy : M Page unit :=
  set_container (remove_child ControlsElement) ;;
  p ← get ;
  match overlay p with
  | Some _ => set_overlay (Some {| hideTimeout := false |})
  | None => ret tt
  end.

Definition showError (title message : string) : M Page unit :=
  set_container (appendChild (ErrorElement title message)).

(** [async loadHLS(hlsUrl)] *)
Definition loadHLS (hlsUrl : jsval) : M Page (outcome unit) :=
  async (try_catch
    (set_container (classList_add "loading") ;;
     on_player (HLSPlayer.loadSource host hlsUrl) ;;
     on_player (HLSPlayer.on "loadedmetadata" RemoveLoading))
    (λ error,
       set_container (classList_remove "loading") ;;
       showError "Failed to load HLS stream" (message_of error))).

(** [async loadVimeo(vimeoId, accessToken = null)] *)
Definition loadVimeo (vimeoId : string) (accessToken : jsval) : M Page (outcome unit) :=
  async (try_catch
    (set_container (classList_add "loading") ;;
     let videoId := or_else (VimeoAPI.extractVideoId vimeoId) vimeoId in
     done ← try_catch
       (hlsUrl ← static (VimeoAPI.getHLSFromPlayer host videoId) ;
        await (loadHLS (Str hlsUrl)) ;;
        set_container (classList_remove "loading") ;;
        ret true)
       (λ _, tell_all [ConsoleLog "Could not get HLS from player, trying API..."] ;;
             ret false) ;
     if done : bool then ret tt
     else
       (if truthy accessToken then
          videoData_hlsUrl ← static (VimeoAPI.getVideoData host videoId accessToken) ;
          if truthy videoData_hlsUrl then await (loadHLS videoData_hlsUrl)
          else throw (Error "No HLS stream available for this video")
        else
          throw (Error "Could not load video. For private videos, provide a Vimeo access token.")) ;;
       set_container (classList_remove "loading"))
    (λ error,
       set_container (classList_remove "loading") ;;
       showError "Failed to load Vimeo video" (message_of error))).

(** [async initialize()], which the constructor calls. *)
Definition initialize : M Page (outcome unit) :=
  async (
    setupContainer ;;
    v ← createVideoElement ;
    p ← get ;
    set_player (Some (HLSPlayer.construct v
      {| opt_autoplay := po_autoplay (settings p); opt_muted := po_muted (settings p);
         opt_controls := false; opt_loop := false |})) ;;
    (if po_controls (settings p) then new_VideoControls else ret tt) ;;
    (if truthy (hlsUrl (settings p)) then await (loadHLS (hlsUrl (settings p)))
     else if truthy (vimeoId (settings p)) then
       await (loadVimeo (string_of (vimeoId (settings p)))
                        (vimeoAccessToken (settings p)))
     else ret tt) ;;
    on_player (HLSPlayer.on "error" ShowLoadError)).

(** [new VimeoHLSPlayer(container, options)] on the element the selector
    found, if any; the defaults are already merged into [o]. *)
Definition construct (found : option Container) (o : PlaybackOptions) (page_log : list effect)
  : outcome Page :=
  match found with
  | None => Throw (Error "Container element not found")
  | Some k =>
      Ok (snd (initialize {| container := k; settings := o; player := None;
                             overlay := None; videoElement := false;
                             log := page_log; made := 0 |}))
  end.

(** The public methods. *)
Definition play : M Page (outcome unit) := on_player (HLSPlayer.play host).
Definition pause : M Page unit := on_player HLSPlayer.pause.
Definition togglePlay : M Page unit := on_player (HLSPlayer.togglePlay host).
Definition seek (time : number) : M Page unit := on_player (HLSPlayer.seek time).
Definition setVolume (v : number) : M Page unit := on_player (HLSPlayer.setVolume v).
Definition getVolume : M Page number := on_player HLSPlayer.getVolume.
Definition toggleMute : M Page bool := on_player HLSPlayer.toggleMute.
Definition getCurrentTime : M Page number := on_player HLSPlayer.getCurrentTime.
Definition getDuration : M Page number := on_player HLSPlayer.getDuration.
Definition on (event : string) (cb : callback) : M Page unit :=
  on_player (HLSPlayer.on event cb).
Definition off (event : string) (cb : callback) : M Page unit :=
  on_player (HLSPlayer.off event cb).

Definition destroy : M Page unit :=
  p ← get ;
  (match overlay p with
   | Some _ => controls_destroy
   | None => ret tt
   end) ;;
  (match player p with
   | Some _ => on_player HLSPlayer.destroy
   | None => ret tt
   end) ;;
  (if videoElement p then set_container (remove_child VideoElement) else ret tt) ;;
  set_container (classList_remove "vimeo-hls-player").

End Methods.
End VimeoHLSPlayer.

(* ===================================================================== *)
(** * player.js, continued: buffered percentage and native events *)
(* ===================================================================== *)

Module Adapter.

(** [x - y] *)
Definition sub (x y : number) : number :=
  match x, y with
  | NaN, _ | _, NaN => NaN
  | Fin a, Fin b => Fin (a - b)%Qc
  | PosInf, PosInf | NegInf, NegInf => NaN
  | PosInf, _ => PosInf
  | NegInf, _ => NegInf
  | Fin _, PosInf => NegInf
  | Fin _, NegInf => PosInf
  end.


Section Events.
Variable host : Host.

(** One function attached to the media element, called for an event of
    the name [name]: the forwarding closure of [attachEventListeners], the
    [loadedmetadata] closure of the native path of [loadSource], and the
    [click] closure of the overlay. *)
Definition listener (name : string) (h : native_handler) : M World unit :=
  match h with
  | Forward event =>
      if String.eqb event name then HLSPlayer.emit host event (NativeEvent name)
      else ret tt
  | AutoplayWhenLoaded =>
      if String.eqb name "loadedmetadata" then
        HLSPlayer.tell (ConsoleLog "Native HLS loaded") ;;
        w ← get ;
        if opt_autoplay (options (self w)) then HLSPlayer.play host ;; ret tt
        else ret tt
      else ret tt
  | ToggleOnClick =>
      if String.eqb name "click" then HLSPlayer.togglePlay host else ret tt
  end.

(** The element dispatches an event: the functions attached when the
    dispatch starts are called in the order they were added; what one of
    them throws is reported by the browser and does not stop the others. *)
Definition dispatchEvent (name : string) : M World unit :=
  w ← get ;
  forEach (λ h, try_catch (listener name h) (λ _, ret tt))
          (handlers (video (self w))).

End Events.
End Adapter.

(* ===================================================================== *)
(** * controls.js, continued: auto-hide, scrubber and volume slider *)
(* ===================================================================== *)

Module Controls.

(** The inline styles of the volume button: [display] of the two icons
    and [height] of the filled bar. *)
Record View : Type := {
  volumeHigh : string;
  volumeMuted : string;
  volumeFilled : string
}.

(** A [VideoControls] with what it acts on: the adapter, the container,
    the timeouts it has set that are still pending, and the pairs of
    document listeners its drags have installed. *)
Record State : Type := {
  player : World;
  container : Container;
  view : View;
  hideTimeout : option nat;
  timeouts : list nat;
  next_timeout : nat;
  drags : nat
}.

Definition set_player (w : World) (s : State) : State :=
  {| player := w; container := container s; view := view s;
     hideTimeout := hideTimeout s; timeouts := timeouts s;
     next_timeout := next_timeout s; drags := drags s |}.

Definition set_container (k : Container) (s : State) : State :=
  {| player := player s; container := k; view := view s;
     hideTimeout := hideTimeout s; timeouts := timeouts s;
     next_timeout := next_timeout s; drags := drags s |}.

Definition set_view (v : View) (s : State) : State :=
  {| player := player s; container := container s; view := v;
     hideTimeout := hideTimeout s; timeouts := timeouts s;
     next_timeout := next_timeout s; drags := drags s |}.

Definition set_hideTimeout (t : option nat) (s : State) : State :=
  {| player := player s; container := container s; view := view s;
     hideTimeout := t; timeouts := timeouts s;
     next_timeout := next_timeout s; drags := drags s |}.

Definition set_timeouts (l : list nat) (n : nat) (s : State) : State :=
  {| player := player s; container := container s; view := view s;
     hideTimeout := hideTimeout s; timeouts := l;
     next_timeout := n; drags := drags s |}.

Definition set_drags (d : nat) (s : State) : State :=
  {| player := player s; container := container s; view := view s;
     hideTimeout := hideTimeout s; timeouts := timeouts s;
     next_timeout := next_timeout s; drags := d |}.

(** A method of [this.player]. *)
Definition on_player {A} (m : M World A) : M State A :=
  λ s, match m (player s) with
       | (r, w) => (r, set_player w s)
       end.

(** [setTimeout(() => this.hideControls(), 3000)]: a new identifier. *)
Definition setTimeout : M State nat :=
  s ← get ;
  modify (set_timeouts (timeouts s ++ [next_timeout s])%list (S (next_timeout s))) ;;
  ret (next_timeout s).

(** [clearTimeout(id)]: nothing happens for an identifier that is not
    pending. *)
Definition clearTimeout (id : nat) : M State unit :=
  s ← get ;
  modify (set_timeouts (filter (λ t, t ≠ id) (timeouts s)) (next_timeout s)).

(** [stopAutoHide()]; the test [if (this.hideTimeout)] fails for [null]
    and for the number 0. *)
Definition stopAutoHide : M State unit :=
  s ← get ;
  match hideTimeout s with
  | Some (S n) => clearTimeout (S n) ;; modify (set_hideTimeout None)
  | _ => ret tt
  end.

Definition startAutoHide : M State unit :=
  stopAutoHide ;;
  id ← setTimeout ;
  modify (set_hideTimeout (Some id)).

Definition hideControls : M State unit :=
  s ← get ;
  if negb (paused (video (self (player s)))) then
    modify (set_container
              (VimeoHLSPlayer.classList_remove "vimeo-hls-controls-visible"
                 (container s)))
  else ret tt.

Definition showControls : M State unit :=
  s ← get ;
  modify (set_container
            (VimeoHLSPlayer.classList_add "vimeo-hls-controls-visible"
               (container s))) ;;
  stopAutoHide ;;
  startAutoHide.

(** A pending timeout runs out: it is no longer pending and its function,
    [hideControls], is called. *)
Definition timeout_fires (id : nat) : M State unit :=
  s ← get ;
  if bool_decide (id ∈ timeouts s) then
    modify (set_timeouts (filter (λ t, t ≠ id) (timeouts s)) (next_timeout s)) ;;
    hideControls
  else ret tt.

Definition destroy : M State unit :=
  s ← get ;
  modify (set_container
            (VimeoHLSPlayer.remove_child ControlsElement (container s))) ;;
  stopAutoHide.

(** [handleProgressClick(e)], with [e.clientX] and the [left] and [width]
    of the rectangle of the progress bar. *)
Definition handleProgressClick (clientX left width : number) : M State unit :=
  let percent := Num.div (Adapter.sub clientX left) width in
  d ← on_player HLSPlayer.getDuration ;
  on_player (HLSPlayer.seek (Num.mul percent d)).

(** [handleProgressDragStart(e)]: one more pair of listeners on the
    document. *)
Definition handleProgressDragStart : M State unit :=
  s ← get ; modify (set_drags (S (drags s))).

Definition times {S} (n : nat) (m : M S unit) : M S unit :=
  forEach (λ _ : nat, m) (seq 0 n).

(** A [mousemove] on the document: every [onMouseMove] installed is
    called. *)
Definition document_mousemove (clientX left width : number) : M State unit :=
  s ← get ; times (drags s) (handleProgressClick clientX left width).

(** A [mouseup] on the document: every [onMouseUp] installed removes its
    pair. *)
Definition document_mouseup : M State unit := modify (set_drags 0).

Section Volume.
Variable host : Host.




End Volume.

(** What reaches the auto-hide code of an overlay: the listeners of the
    container ([mousemove], [mouseleave]), those of the adapter for [play]
    and [pause], a timeout running out, the element starting or stopping,
    and [destroy]. *)
Inductive event : Type :=
| MouseMove
| MouseLeave
| PlayListener
| PauseListener
| TimeoutFires (id : nat)
| ElementPaused (b : bool)
| Destroy.

Definition deliver (e : event) : M State unit :=
  match e with
  | MouseMove => showControls
  | MouseLeave => hideControls
  | PlayListener => startAutoHide
  | PauseListener => stopAutoHide
  | TimeoutFires id => timeout_fires id
  | ElementPaused b => on_player (HLSPlayer.set_video (HLSPlayer.with_paused b))
  | Destroy => destroy
  end.

(** The overlay right after its constructor, on the adapter [w] and the
    container [k]; identifiers of timeouts are positive. *)
Definition create (w : World) (k : Container) : State :=
  {| player := w;
     container := VimeoHLSPlayer.appendChild ControlsElement k;
     view := {| volumeHigh := ""; volumeMuted := "none"; volumeFilled := "" |};
     hideTimeout := None; timeouts := []; next_timeout := 1; drags := 0 |}.

End Controls.

(* ===================================================================== *)
(** * Vocabulary of the properties *)
(* ===================================================================== *)

(** The world after some more calls. *)
Definition add_out (es : list effect) (w : World) : World :=
  {| self := self w; out := (out w ++ es)%list; engines := engines w |}.

(** The classes the [default] branch of the error handler takes. *)
Definition other_class (t : ErrorTypes) : bool :=
  match t with
  | NETWORK_ERROR | MEDIA_ERROR => false
  | _ => true
  end.

(** The calls of listeners in a log. *)
Definition is_call (e : effect) : bool :=
  match e with Call _ _ => true | _ => false end.

(** The page [destroy()] leaves. *)
Definition destroyed (p : Page) : Page :=
  {| container :=
       VimeoHLSPlayer.classList_remove "vimeo-hls-player"
         ((if videoElement p then VimeoHLSPlayer.remove_child VideoElement else id)
            (match overlay p with
             | Some _ => VimeoHLSPlayer.remove_child ControlsElement (container p)
             | None => container p
             end));
     settings := settings p;
     player :=
       match player p with
       | Some pl => Some {| video := HLSPlayer.with_src "" (video pl); hls := None;
                            options := options pl; listeners := ∅ |}
       | None => None
       end;
     overlay := match overlay p with
                | Some _ => Some {| hideTimeout := false |}
                | None => None
                end;
     videoElement := videoElement p;
     log := (log p ++ match player p with
                      | Some {| hls := Some e |} => [HlsDestroy e]
                      | _ => []
                      end)%list;
     made := made p |}.

(** A call returns when it does not throw. *)
Definition returns {S A} (m : M S A) (s : S) : Prop :=
  ∃ a, fst (m s) = Ok a.

(** The message of the error [loadVimeo] throws without a token. *)
Definition token_required : string :=
  "Could not load video. For private videos, provide a Vimeo access token.".

(** A computation of the facade that never unsets [this.player]. *)
Definition keeps_player {A} (m : M Page A) : Prop :=
  ∀ p, is_Some (player p) → is_Some (player (snd (m p))).

(** A digit group: a non-empty run of decimal digits. *)
Definition digit_group (d : string) : Prop :=
  d ≠ "" ∧ Str.all_digits d = true.

(** [s] has the shape [lit{digits}] somewhere: it contains the literal
    directly followed by a digit group. *)
Definition has_shape (lit s : string) : Prop :=
  ∃ pre d post, s = pre +:+ lit +:+ d +:+ post ∧ digit_group d.

(** [post] does not go on with a digit. *)
Definition stops (post : string) : Prop :=
  match post with
  | EmptyString => True
  | String c _ => Str.is_digit c = false
  end.



(** What the error handler asks of the engine [e] for [data], with the
    console line before it: a restart of the load for a fatal network
    error, a recovery for a fatal media error. *)
Definition recovery (data : ErrorData) (e : nat) : list effect :=
  if fatal data then
    match type data with
    | NETWORK_ERROR =>
        [ConsoleError "Fatal network error, trying to recover"; HlsStartLoad e]
    | MEDIA_ERROR =>
        [ConsoleError "Fatal media error, trying to recover"; HlsRecoverMediaError e]
    | _ => []
    end
  else [].

(** The class that makes the overlay visible. *)
Definition visible : string := "vimeo-hls-controls-visible".

(** The overlay on the adapter [w] and the container [k] after the events
    [es] have reached it, in this order. *)
Definition after (es : list Controls.event) (w : World) (k : Container)
  : Controls.State :=
  snd (forEach Controls.deliver es (Controls.create w k)).

(** The timeouts of an overlay are in order: the one pending, if any, is
    the one [hideTimeout] names, and identifiers are positive. *)
Definition timers_in_order (s : Controls.State) : Prop :=
  (Controls.timeouts s = []
   ∨ ∃ n, Controls.timeouts s = [S n] ∧ Controls.hideTimeout s = Some (S n))
  ∧ (1 ≤ Controls.next_timeout s)%nat.

(* ===================================================================== *)
(** * Sample values *)
(* ===================================================================== *)

(** The rational [n/d]. *)
Definition qz (n : Z) (d : positive) : Qc := Q2Qc (n # d).

(** A new media element. *)
Definition video0 : Video :=
  {| src := ""; autoplay := false; muted := false; controls := false;
     loop := false; volume := Num.of_Z 1; currentTime := Num.of_Z 0;
     duration := NaN; paused := true; poster := Str ""; handlers := [] |}.

(** The defaults of the adapter. *)
Definition options0 : Options :=
  {| opt_autoplay := false; opt_muted := false; opt_controls := false;
     opt_loop := false |}.

(** The adapter as constructed, before any call. *)
Definition world0 : World :=
  {| self := HLSPlayer.construct video0 options0; out := []; engines := 0 |}.

(** A host where the engine is supported, playback starts, no listener
    throws and the network knows no video. *)
Definition host0 : Host :=
  {| frac_toString := λ _, "?";
     string_to_number := λ _, NaN;
     Hls_isSupported := true;
     canPlayType_hls := false;
     video_play_rejects := None;
     listener_throws := λ _ _, None;
     player_page := λ _, inr "Failed to fetch";
     api_video := λ _ _, inr "Failed to fetch video data: Unauthorized" |}.

(** The player after [loadSource] on a supported platform and
    [on('error', cb)] for a user callback. *)
Definition world_listening : World :=
  snd (HLSPlayer.on "error" (UserCb 0)
         (snd (HLSPlayer.loadSource host0 (Str "https://cdn.example/v.m3u8") world0))).

(** An empty container. *)
Definition container0 : Container :=
  {| classList := []; paddingTop := None; position := None; height := None;
     children := [] |}.

(** The defaults of the constructor. *)
Definition defaults : PlaybackOptions :=
  {| vimeoId := Null; hlsUrl := Null; vimeoAccessToken := Null;
     po_autoplay := false; po_muted := false; po_controls := true;
     aspectRatio := Str "16:9"; po_poster := Null |}.

(** The fields of a facade before [initialize]. *)
Definition blank_page : Page :=
  {| container := container0; settings := defaults; player := None;
     overlay := None; videoElement := false; log := []; made := 0 |}.

(** A facade constructed with the defaults on an empty container. *)
Definition page0 : Page := snd (VimeoHLSPlayer.initialize host0 blank_page).

(** A host like [host0] where the listener [UserCb 1] throws. *)
Definition host_throwing : Host :=
  {| frac_toString := λ _, "?";
     string_to_number := λ _, NaN;
     Hls_isSupported := true;
     canPlayType_hls := false;
     video_play_rejects := None;
     listener_throws := λ cb _, if bool_decide (cb = UserCb 1) then Some "boom" else None;
     player_page := λ _, inr "Failed to fetch";
     api_video := λ _ _, inr "Failed to fetch video data: Unauthorized" |}.

(** The adapter with three listeners for [play]. *)
Definition world_three : World :=
  snd (HLSPlayer.on "play" (UserCb 2)
         (snd (HLSPlayer.on "play" (UserCb 1)
                 (snd (HLSPlayer.on "play" (UserCb 0) world0))))).

(** A host like [host0] on a platform without the engine and without
    native support. *)
Definition host_unsupported : Host :=
  {| frac_toString := λ _, "?";
     string_to_number := λ _, NaN;
     Hls_isSupported := false;
     canPlayType_hls := false;
     video_play_rejects := None;
     listener_throws := λ _ _, None;
     player_page := λ _, inr "Failed to fetch";
     api_video := λ _ _, inr "Failed to fetch video data: Unauthorized" |}.

(** A host like [host0] where the element refuses to play. *)
Definition host_rejecting : Host :=
  {| frac_toString := λ _, "?";
     string_to_number := λ _, NaN;
     Hls_isSupported := true;
     canPlayType_hls := false;
     video_play_rejects := Some "NotAllowedError";
     listener_throws := λ _ _, None;
     player_page := λ _, inr "Failed to fetch";
     api_video := λ _ _, inr "Failed to fetch video data: Unauthorized" |}.

(** A host like [host0] where the player page of every video gives an
    HLS URL. *)
Definition host_public : Host :=
  {| frac_toString := λ _, "?";
     string_to_number := λ _, NaN;
     Hls_isSupported := true;
     canPlayType_hls := false;
     video_play_rejects := None;
     listener_throws := λ _ _, None;
     player_page := λ _, inl "https://cdn.example/master.m3u8";
     api_video := λ _ _, inr "Failed to fetch video data: Unauthorized" |}.

(** A host like [host0] where the player page fails and the API answers
    the token ["t0k"] with an HLS link, and any other with a video that
    has none. *)
Definition host_private : Host :=
  {| frac_toString := λ _, "?";
     string_to_number := λ _, NaN;
     Hls_isSupported := true;
     canPlayType_hls := false;
     video_play_rejects := None;
     listener_throws := λ _ _, None;
     player_page := λ _, inr "Failed to fetch";
     api_video := λ _ t, if String.eqb t "t0k"
                         then inl (Some "https://cdn.example/private.m3u8")
                         else inl None |}.

(** The adapter of [page0]. *)
Definition adapter0 : HLSPlayer :=
  default (HLSPlayer.construct video0 options0) (player page0).

(** The defaults with a URL of a manifest. *)
Definition with_hlsUrl0 : PlaybackOptions :=
  {| vimeoId := Null; hlsUrl := Str "https://cdn.example/v.m3u8";
     vimeoAccessToken := Null;
     po_autoplay := false; po_muted := false; po_controls := true;
     aspectRatio := Str "16:9"; po_poster := Null |}.

(** A media element that plays a stream of two minutes, and its adapter
    and overlay. *)
Definition video_loaded : Video :=
  {| src := ""; autoplay := false; muted := true; controls := false;
     loop := false; volume := Num.of_Z 1; currentTime := Num.of_Z 0;
     duration := Num.of_Z 120; paused := false; poster := Str "";
     handlers := map Forward Registry.predefined_keys |}.

Definition world_loaded : World :=
  {| self := {| video := video_loaded; hls := Some 0%nat; options := options0;
                listeners := Registry.initial |};
     out := []; engines := 1 |}.

Definition controls_loaded : Controls.State :=
  Controls.create world_loaded container0.

(* ===================================================================== *)
(** * Properties *)
(* ===================================================================== *)

(** Unfolds the monad so that a run of methods computes. *)
Ltac run :=
  repeat (cbv beta delta
            [mbind M_bind mret M_ret bind ret throw get modify try_catch async
             await
             HLSPlayer.tell HLSPlayer.set_video HLSPlayer.set_hls
             HLSPlayer.set_listeners] iota;
          cbn [fst snd self out engines video hls options listeners fatal type]).

(** ** Sample runs *)

Example extract_ex1 :
  VimeoAPI.extractVideoId "https://vimeo.com/76979871" = Some "76979871".
Proof. reflexivity. Qed.
Example extract_ex2 :
  VimeoAPI.extractVideoId "https://player.vimeo.com/video/123?h=1" = Some "123".
Proof. reflexivity. Qed.
Example extract_ex3 : VimeoAPI.extractVideoId "abc" = None.
Proof. reflexivity. Qed.
Example extract_ex4 : VimeoAPI.extractVideoId "0042" = Some "0042".
Proof. reflexivity. Qed.
Example split_ex : Str.split_on ":" "16:9" = ["16"; "9"].
Proof. reflexivity. Qed.
Example pad_ex : Str.padStart 2 "0" "7" = "07".
Proof. reflexivity. Qed.
Example formatTime_ex1 f : VideoControls.formatTime f (Num.of_Z 75) = "1:15".
Proof. vm_compute. reflexivity. Qed.
Example formatTime_ex2 f : VideoControls.formatTime f (Fin (qz 7325 2)) = "1:01:02".
Proof. vm_compute. reflexivity. Qed.
Example formatTime_negative f : VideoControls.formatTime f (Num.of_Z (-1)) = "-1:-1".
Proof. vm_compute. reflexivity. Qed.

(** ** [extractVideoId] *)

Lemma append_cons (c : ascii) (s t : string) :
  String c s +:+ t = String c (s +:+ t).
Proof. reflexivity. Qed.

Lemma append_nil_l (t : string) : "" +:+ t = t.
Proof. reflexivity. Qed.

Lemma append_nil_r (s : string) : s +:+ "" = s.
Proof.
  induction s as [| c s IH]; [reflexivity|]. now rewrite append_cons, IH.
Qed.

Lemma append_assoc (a b c : string) : (a +:+ b) +:+ c = a +:+ (b +:+ c).
Proof.
  induction a as [| x a IH]; [reflexivity|]. now rewrite !append_cons, IH.
Qed.

Lemma strip_prefix_app (p s : string) : Str.strip_prefix p (p +:+ s) = Some s.
Proof.
  induction p as [| c p IH]; [reflexivity|].
  rewrite append_cons. cbn. now rewrite Ascii.eqb_refl.
Qed.

Lemma strip_prefix_Some (p s r : string) :
  Str.strip_prefix p s = Some r → s = p +:+ r.
Proof.
  revert s. induction p as [| c p IH]; intros s H.
  - cbn in H. now inversion H.
  - destruct s as [| c' s]; [discriminate H|]. cbn in H.
    destruct (Ascii.eqb c c') eqn:Hc; [|discriminate H].
    apply Ascii.eqb_eq in Hc. subst c'. rewrite append_cons. f_equal. now apply IH.
Qed.


Lemma take_digits_split (s : string) :
  ∃ post, s = Str.take_digits s +:+ post
          ∧ Str.all_digits (Str.take_digits s) = true ∧ stops post.
Proof.
  induction s as [| c s (post & Hs & Hd & Hp)].
  - exists "". cbn. auto.
  - cbn. destruct (Str.is_digit c) eqn:Hc.
    + exists post. rewrite append_cons. cbn. rewrite Hc, Hd. rewrite <- Hs. auto.
    + exists (String c s). cbn. auto.
Qed.


Lemma match_here_Some (lit s d : string) :
  VimeoAPI.match_here lit s = Some d →
  ∃ post, s = lit +:+ d +:+ post ∧ digit_group d ∧ stops post.
Proof.
  unfold VimeoAPI.match_here. intros H.
  destruct (Str.strip_prefix lit s) as [r|] eqn:Hr; [|discriminate H].
  apply strip_prefix_Some in Hr.
  destruct (take_digits_split r) as (post & Hs & Hd & Hp).
  destruct (Str.take_digits r) as [| c t] eqn:Ht; [discriminate H|].
  inversion H; subst d. exists post. rewrite <- Hs.
  split; [assumption|]. split; [|assumption]. split; [discriminate|assumption].
Qed.

Lemma regex_match_here (lit s d : string) :
  VimeoAPI.match_here lit s = Some d → VimeoAPI.regex_match lit s = Some d.
Proof. intros H. destruct s; cbn; now rewrite H. Qed.

Lemma regex_match_next (lit : string) (c : ascii) (s : string) :
  VimeoAPI.match_here lit (String c s) = None →
  VimeoAPI.regex_match lit (String c s) = VimeoAPI.regex_match lit s.
Proof. intros H. cbn. now rewrite H. Qed.

(** A successful match exhibits the shape, and the value is its digit
    group. *)
Lemma regex_match_Some (lit s d : string) :
  VimeoAPI.regex_match lit s = Some d →
  ∃ pre post, s = pre +:+ lit +:+ d +:+ post ∧ digit_group d ∧ stops post.
Proof.
  induction s as [| c s IH]; intros H.
  - cbn in H. destruct (VimeoAPI.match_here lit "") eqn:Hm; [|discriminate H].
    inversion H; subst. apply match_here_Some in Hm. destruct Hm as (post & ?).
    exists "", post. assumption.
  - destruct (VimeoAPI.match_here lit (String c s)) as [d'|] eqn:Hm.
    + rewrite (regex_match_here _ _ _ Hm) in H. inversion H; subst d'.
      apply match_here_Some in Hm. destruct Hm as (post & ?).
      exists "", post. assumption.
    + rewrite (regex_match_next _ _ _ Hm) in H.
      destruct (IH H) as (pre & post & Hs & Hd & Hp).
      exists (String c pre), post. rewrite append_cons, <- Hs. auto.
Qed.

Lemma regex_match_None (lit s : string) :
  ¬ has_shape lit s → VimeoAPI.regex_match lit s = None.
Proof.
  intros Hno. destruct (VimeoAPI.regex_match lit s) as [d|] eqn:Hm; [|reflexivity].
  exfalso. apply Hno. apply regex_match_Some in Hm.
  destruct Hm as (pre & post & Hs & Hd & _). exists pre, d, post. auto.
Qed.

(** A literal whose first character does not occur in [s] cannot match. *)
Lemma match_here_first_char (a : ascii) (lit : string) (c : ascii) (s : string) :
  Ascii.eqb c a = false → VimeoAPI.match_here (String a lit) (String c s) = None.
Proof.
  intros Hc. unfold VimeoAPI.match_here. cbn.
  rewrite Ascii.eqb_sym, Hc. reflexivity.
Qed.

Lemma regex_match_absent (a : ascii) (lit s : string) :
  Str.has_char a s = false → VimeoAPI.regex_match (String a lit) s = None.
Proof.
  induction s as [| c s IH]; intros H; [reflexivity|].
  cbn in H. apply orb_false_elim in H. destruct H as [Hc Hs].
  rewrite regex_match_next by (now apply match_here_first_char).
  now apply IH.
Qed.



Lemma digits_have_no_letter (a : ascii) (d : string) :
  Str.is_digit a = false → Str.all_digits d = true → Str.has_char a d = false.
Proof.
  intros Ha. induction d as [| c d IH]; intros Hd; [reflexivity|].
  cbn in *. apply andb_prop in Hd. destruct Hd as [Hc Hd].
  rewrite (IH Hd), orb_false_r.
  destruct (Ascii.eqb c a) eqn:Hca; [|reflexivity].
  apply Ascii.eqb_eq in Hca. subst. congruence.
Qed.

Lemma take_digits_nonempty (d post : string) :
  digit_group d → Str.take_digits (d +:+ post) ≠ "".
Proof.
  intros [Hne Hd]. destruct d as [| c d]; [contradiction|].
  rewrite append_cons. cbn in *. apply andb_prop in Hd. destruct Hd as [Hc _].
  rewrite Hc. discriminate.
Qed.

(** Conversely, a string that has the shape is matched. *)
Lemma has_shape_matched (lit s : string) :
  has_shape lit s → ∃ d, VimeoAPI.regex_match lit s = Some d.
Proof.
  intros (pre & d & post & -> & Hd).
  induction pre as [| c pre IH].
  - rewrite append_nil_l.
    assert (Hm : ∃ d', VimeoAPI.match_here lit (lit +:+ d +:+ post) = Some d').
    { unfold VimeoAPI.match_here. rewrite strip_prefix_app.
      pose proof (take_digits_nonempty d post Hd) as Hne.
      destruct (Str.take_digits (d +:+ post)); [contradiction|]. eauto. }
    destruct Hm as [d' Hm]. exists d'. now apply regex_match_here.
  - rewrite append_cons.
    destruct (VimeoAPI.match_here lit (String c (pre +:+ lit +:+ d +:+ post)))
      as [d'|] eqn:Hm.
    + exists d'. now apply regex_match_here.
    + rewrite regex_match_next by exact Hm. exact IH.
Qed.

Lemma no_shape_iff (lit s : string) :
  ¬ has_shape lit s ↔ VimeoAPI.regex_match lit s = None.
Proof.
  split; [apply regex_match_None|].
  intros Hn Hs. apply has_shape_matched in Hs. destruct Hs as [d Hd]. congruence.
Qed.

Lemma v_not_digit : Str.is_digit "v" = false.
Proof. reflexivity. Qed.

Lemma p_not_digit : Str.is_digit "p" = false.
Proof. reflexivity. Qed.





Lemma extract_numeric (s : string) :
  digit_group s → VimeoAPI.extractVideoId s = Some s.
Proof.
  intros [Hne Hd]. unfold VimeoAPI.extractVideoId, VimeoAPI.patterns.
  cbn [VimeoAPI.first_match].
  rewrite !regex_match_absent
    by (apply digits_have_no_letter; [reflexivity | exact Hd]).
  unfold VimeoAPI.numeric. destruct s; [contradiction|]. now rewrite Hd.
Qed.

Lemma numeric_iff (s : string) : VimeoAPI.numeric s = true ↔ digit_group s.
Proof.
  unfold VimeoAPI.numeric, digit_group. destruct s as [| c s].
  - split; [discriminate | intros [H _]; contradiction].
  - split; [intros H; split; [discriminate | exact H] | intros [_ H]; exact H].
Qed.

Lemma extract_none (s : string) :
  (∀ lit, lit ∈ VimeoAPI.patterns → ¬ has_shape lit s) → ¬ digit_group s →
  VimeoAPI.extractVideoId s = None.
Proof.
  intros Hno Hnum. unfold VimeoAPI.extractVideoId, VimeoAPI.patterns in *.
  cbn [VimeoAPI.first_match].
  rewrite !regex_match_None by (apply Hno; rewrite !elem_of_cons; tauto).
  destruct (VimeoAPI.numeric s) eqn:Hn; [|reflexivity].
  apply numeric_iff in Hn. contradiction.
Qed.




(** ** [formatTime] *)

Lemma Qfloor_Qred (q : Q) : Qfloor (Qred q) = Qfloor q.
Proof. apply Qfloor_comp. apply Qred_correct. Qed.

Lemma floor_div_pos (t : Qc) (c : positive) :
  Qfloor (t / Qc_of_Z (Zpos c))%Qc = Qfloor t / Zpos c.
Proof.
  unfold Qcdiv, Qcmult, Qcinv, Q2Qc. cbn [this].
  rewrite Qfloor_Qred.
  transitivity (Qfloor (t * / inject_Z (Z.pos c))%Q).
  { apply Qfloor_comp. apply Qmult_comp; [reflexivity|]. apply Qred_correct. }
  destruct t as [[n d] Hc]. cbn [this].
  unfold Qmult, Qinv, inject_Z, Qfloor. cbn [Qnum Qden].
  rewrite Z.mul_1_r, Pos2Z.inj_mul.
  rewrite Z.div_div by lia. reflexivity.
Qed.

Lemma floor_sub_Z (t : Qc) (z : Z) :
  Qfloor (t - Qc_of_Z z)%Qc = Qfloor t - z.
Proof.
  unfold Qcminus, Qcplus, Qcopp, Q2Qc. cbn [this].
  rewrite Qfloor_Qred.
  transitivity (Qfloor (t + - inject_Z z)%Q).
  { apply Qfloor_comp. apply Qplus_comp; [reflexivity|]. apply Qred_correct. }
  destruct t as [[n d] Hc]. cbn [this].
  unfold Qplus, Qopp, inject_Z, Qfloor. cbn [Qnum Qden].
  rewrite Pos.mul_1_r, Z.mul_1_r.
  rewrite Z.div_add by discriminate. ring.
Qed.

Lemma Qc_nonneg_num (q : Qc) : (0 ≤ q)%Qc → 0 <= Qnum q.
Proof.
  destruct q as [[n d] Hc]. unfold Qcle, Qle. cbn.
  change (Qred 0) with (0 # 1)%Q. cbn. lia.
Qed.

Lemma Qfloor_nonneg (q : Qc) : (0 ≤ q)%Qc → 0 <= Qfloor q.
Proof.
  intros H. apply Qc_nonneg_num in H. destruct q as [[n d] Hc]. cbn in *.
  apply Z.div_pos; lia.
Qed.



Lemma trunc_nonneg (q : Qc) : (0 ≤ q)%Qc → Z.quot (Qnum q) (Zpos (Qden q)) = Qfloor q.
Proof.
  intros H. apply Qc_nonneg_num in H. destruct q as [[n d] Hc]. cbn in *.
  apply Z.quot_div_nonneg; lia.
Qed.

Lemma div_nonneg (t : Qc) (c : positive) : (0 ≤ t)%Qc → (0 ≤ t / Qc_of_Z (Zpos c))%Qc.
Proof.
  intros H. unfold Qcdiv. apply Qcmult_nonneg_nonneg; [exact H|].
  apply Qclt_le_weak, Qcinv_pos.
  pose proof (proj1 (Z2Qc_inj_lt 0 (Zpos c)) ltac:(lia)) as Hlt.
  now rewrite Z2Qc_inj_0 in Hlt.
Qed.

Lemma Qc_of_Z_pos_nonzero (c : positive) : Qc_of_Z (Zpos c) ≠ 0%Qc.
Proof.
  intros H. rewrite <- Z2Qc_inj_0 in H. apply Z2Qc_inj in H. discriminate H.
Qed.

Lemma div_fin (t : Qc) (c : positive) :
  Num.div (Fin t) (Num.of_Z (Zpos c)) = Fin (t / Qc_of_Z (Zpos c))%Qc.
Proof.
  unfold Num.div, Num.of_Z.
  now rewrite bool_decide_eq_false_2 by apply Qc_of_Z_pos_nonzero.
Qed.

Lemma rem_fin (t : Qc) (c : positive) :
  (0 ≤ t)%Qc →
  Num.rem (Fin t) (Num.of_Z (Zpos c)) =
  Fin (t - Qc_of_Z (Zpos c * (Qfloor t / Zpos c)))%Qc.
Proof.
  intros Ht. unfold Num.rem, Num.of_Z.
  rewrite bool_decide_eq_false_2 by apply Qc_of_Z_pos_nonzero.
  unfold Num.trunc. rewrite trunc_nonneg by (now apply div_nonneg).
  now rewrite floor_div_pos, Z2Qc_inj_mul.
Qed.

Lemma gt_of_Z (a b : Z) : Num.gt (Num.of_Z a) (Num.of_Z b) = (b <? a).
Proof.
  unfold Num.gt, Num.lt, Num.of_Z.
  destruct (Z.ltb_spec b a) as [H|H].
  - apply bool_decide_eq_true_2. exact (proj1 (Z2Qc_inj_lt b a) H).
  - apply bool_decide_eq_false_2. intros Hlt.
    apply (proj2 (Z2Qc_inj_lt b a)) in Hlt. lia.
Qed.

(** The three numbers of [formatTime] for a time that is not negative, in
    whole seconds [T]: hours [T / 3600], minutes [T mod 3600 / 60], seconds
    [T mod 60]. *)
Lemma formatTime_parts (t : Qc) :
  (0 ≤ t)%Qc →
  let T := Qfloor t in
  Num.floor (Num.div (Fin t) (Num.of_Z 3600)) = Num.of_Z (T / 3600)
  ∧ Num.floor (Num.div (Num.rem (Fin t) (Num.of_Z 3600)) (Num.of_Z 60))
    = Num.of_Z (T mod 3600 / 60)
  ∧ Num.floor (Num.rem (Fin t) (Num.of_Z 60)) = Num.of_Z (T mod 60).
Proof.
  intros Ht T. repeat split.
  - rewrite div_fin. cbn [Num.floor]. now rewrite floor_div_pos.
  - rewrite rem_fin by exact Ht. rewrite div_fin. cbn [Num.floor].
    rewrite floor_div_pos, floor_sub_Z. fold T. f_equal. f_equal.
    rewrite Z.mod_eq by lia. reflexivity.
  - rewrite rem_fin by exact Ht. cbn [Num.floor]. rewrite floor_sub_Z. fold T.
    f_equal. rewrite Z.mod_eq by lia. reflexivity.
Qed.







(** A live stream has the duration [Infinity], which is not [NaN]. *)
Example formatTime_infinity (frac : Qc → string) :
  VideoControls.formatTime frac PosInf = "Infinity:NaN:NaN".
Proof. reflexivity. Qed.

(** ** [setVolume] *)

Lemma setVolume_run (w : World) (v : number) :
  HLSPlayer.setVolume v w =
  (Ok tt,
   {| self := {| video := HLSPlayer.with_volume
                            (Num.max (Num.of_Z 0) (Num.min (Num.of_Z 1) v))
                            (video (self w));
                 hls := hls (self w); options := options (self w);
                 listeners := listeners (self w) |};
      out := out w; engines := engines w |}).
Proof. reflexivity. Qed.

Lemma Qc_of_Z_0 : Qc_of_Z 0 = 0%Qc.
Proof. apply Z2Qc_inj_0. Qed.

Lemma Qc_of_Z_1 : Qc_of_Z 1 = 1%Qc.
Proof. apply Z2Qc_inj_1. Qed.

Lemma clamp_fin (q : Qc) :
  Num.max (Num.of_Z 0) (Num.min (Num.of_Z 1) (Fin q)) =
  Fin (if bool_decide (q < 0)%Qc then 0%Qc
       else if bool_decide (1 < q)%Qc then 1%Qc else q).
Proof.
  unfold Num.max, Num.min, Num.of_Z. cbn [Num.isNaN orb Num.lt].
  rewrite Qc_of_Z_0, Qc_of_Z_1.
  destruct (bool_decide (q < 1)%Qc) eqn:Hq1; cbn [Num.isNaN orb Num.lt].
  - apply bool_decide_eq_true in Hq1.
    rewrite (bool_decide_eq_false_2 (1 < q)%Qc)
      by (apply Qcle_not_lt, Qclt_le_weak, Hq1).
    destruct (bool_decide (q < 0)%Qc) eqn:Hq0.
    + apply bool_decide_eq_true in Hq0.
      rewrite (bool_decide_eq_false_2 (0 < q)%Qc)
        by (apply Qcle_not_lt, Qclt_le_weak, Hq0).
      reflexivity.
    + apply bool_decide_eq_false in Hq0. apply Qcnot_lt_le in Hq0.
      destruct (bool_decide (0 < q)%Qc) eqn:Hp; [reflexivity|].
      apply bool_decide_eq_false in Hp. apply Qcnot_lt_le in Hp.
      f_equal. apply Qcle_antisym; assumption.
  - apply bool_decide_eq_false in Hq1. apply Qcnot_lt_le in Hq1.
    assert (H01 : (0 < 1)%Qc) by reflexivity.
    rewrite (bool_decide_eq_true_2 (0 < 1)%Qc H01).
    rewrite (bool_decide_eq_false_2 (q < 0)%Qc).
    2:{ apply Qcle_not_lt. apply Qcle_trans with 1%Qc; [|exact Hq1].
        apply Qclt_le_weak, H01. }
    destruct (bool_decide (1 < q)%Qc) eqn:H1q; [reflexivity|].
    apply bool_decide_eq_false in H1q. apply Qcnot_lt_le in H1q.
    f_equal. apply Qcle_antisym; assumption.
Qed.

(** C7. For every real [v], after [setVolume(v)] the volume of the media
    element is [v] clamped to [0, 1]: 0 when [v < 0], 1 when [v > 1], and
    [v] otherwise; [setVolume(-1)] gives 0 and [setVolume(2)] gives 1. *)
Theorem setVolume_clamps (w : World) (v : Qc) :
  volume (video (self (snd (HLSPlayer.setVolume (Fin v) w)))) =
    Fin (if bool_decide (v < 0)%Qc then 0%Qc
         else if bool_decide (1 < v)%Qc then 1%Qc else v)
  ∧ volume (video (self (snd (HLSPlayer.setVolume (Num.of_Z (-1)) w)))) = Num.of_Z 0
  ∧ volume (video (self (snd (HLSPlayer.setVolume (Num.of_Z 2) w)))) = Num.of_Z 1.
Proof.
  rewrite !setVolume_run. cbn [snd self video volume HLSPlayer.with_volume].
  split; [apply clamp_fin|]. split.
  - change (Num.of_Z (-1)) with (Fin (Qc_of_Z (-1))). rewrite clamp_fin.
    rewrite bool_decide_eq_true_2 by reflexivity. unfold Num.of_Z.
    now rewrite Qc_of_Z_0.
  - change (Num.of_Z 2) with (Fin (Qc_of_Z 2)). rewrite clamp_fin.
    rewrite bool_decide_eq_false_2 by (intros H; discriminate H).
    rewrite bool_decide_eq_true_2 by reflexivity. unfold Num.of_Z.
    now rewrite Qc_of_Z_1.
Qed.

(** ** [loadSource] without a URL *)

(** C10. For a falsy [url] ([null], [undefined], the empty string)
    [loadSource(url)] returns with the player as it was: no engine is
    created, the source of the media element is not assigned, and nothing
    is emitted; the only call is the console message. *)
Theorem loadSource_falsy (host : Host) (w : World) (url : jsval) :
  url = Null ∨ url = Undefined ∨ url = Str "" →
  HLSPlayer.loadSource host url w =
  (Ok tt, {| self := self w;
             out := (out w ++ [ConsoleError "No HLS URL provided"])%list;
             engines := engines w |}).
Proof. intros [-> | [-> | ->]]; reflexivity. Qed.

Lemma loadSource_falsy_witness :
  HLSPlayer.loadSource host0 (Str "") world0 =
  (Ok tt, {| self := self world0;
             out := (out world0 ++ [ConsoleError "No HLS URL provided"])%list;
             engines := engines world0 |}).
Proof. apply (loadSource_falsy host0 world0 (Str "")). right. right. reflexivity. Defined.

(** ** The listener registry *)

Lemma lookup_missing (o : gmap string (list callback)) (event : string) :
  o !! event = None → event ∉ Registry.object_prototype_names →
  Registry.lookup o event = Registry.Missing.
Proof.
  intros Ho Hp. unfold Registry.lookup. rewrite Ho.
  rewrite bool_decide_eq_false_2; [reflexivity | exact Hp].
Qed.

Lemma lookup_inherited (o : gmap string (list callback)) (event : string) :
  o !! event = None → event ∈ Registry.object_prototype_names →
  Registry.lookup o event = Registry.Inherited.
Proof.
  intros Ho Hp. unfold Registry.lookup. rewrite Ho.
  rewrite bool_decide_eq_true_2; [reflexivity | exact Hp].
Qed.

Lemma lookup_own (o : gmap string (list callback)) (event : string) cbs :
  o !! event = Some cbs → Registry.lookup o event = Registry.Array cbs.
Proof. intros Ho. unfold Registry.lookup. now rewrite Ho. Qed.

(** The own properties of the constructor's registry are the six names. *)
Lemma initial_lookup (event : string) :
  Registry.initial !! event =
  if bool_decide (event ∈ Registry.predefined_keys) then Some [] else None.
Proof.
  unfold Registry.initial, Registry.predefined_keys.
  repeat (rewrite lookup_insert; case_decide;
          [ subst; vm_compute; reflexivity | ]).
  rewrite lookup_empty. rewrite bool_decide_eq_false_2; [reflexivity|].
  rewrite !elem_of_cons, elem_of_nil. intros Hin.
  repeat (destruct Hin as [Hin | Hin]; [congruence|]). exact Hin.
Qed.

(** On a name that is neither an own property of the registry nor a
    property of [Object.prototype], [on], [off] and [emit] do nothing. *)
Lemma unknown_event_noop (host : Host) (w : World) (event : string)
      (cb : callback) (data : payload) :
  listeners (self w) !! event = None →
  event ∉ Registry.object_prototype_names →
  HLSPlayer.on event cb w = (Ok tt, w)
  ∧ HLSPlayer.off event cb w = (Ok tt, w)
  ∧ HLSPlayer.emit host event data w = (Ok tt, w).
Proof.
  intros Ho Hp.
  unfold HLSPlayer.on, HLSPlayer.off, HLSPlayer.emit. run.
  rewrite (lookup_missing _ _ Ho Hp). auto.
Qed.

(** On a name inherited from [Object.prototype] the guard
    [if (this.listeners[event])] passes and the array method is missing:
    each of the three throws a [TypeError], in any registry that has no own
    property of that name. *)
Lemma inherited_event_throws (host : Host) (w : World) (event : string)
      (cb : callback) (data : payload) :
  listeners (self w) !! event = None →
  event ∈ Registry.object_prototype_names →
  HLSPlayer.on event cb w =
    (Throw (TypeError "this.listeners[event].push is not a function"), w)
  ∧ HLSPlayer.off event cb w =
    (Throw (TypeError "this.listeners[event].filter is not a function"), w)
  ∧ HLSPlayer.emit host event data w =
    (Throw (TypeError "this.listeners[event].forEach is not a function"), w).
Proof.
  intros Ho Hp.
  unfold HLSPlayer.on, HLSPlayer.off, HLSPlayer.emit. run.
  rewrite (lookup_inherited _ _ Ho Hp). auto.
Qed.

(** C9, at the input where it fails. [toString] is not one of the six
    keys of the registry; on the player as constructed, [on], [off] and
    [emit] for it throw instead of doing nothing. *)
Theorem on_off_emit_toString_throw :
  ("toString" ∉ Registry.predefined_keys)
  ∧ HLSPlayer.on "toString" (UserCb 0) world0 =
      (Throw (TypeError "this.listeners[event].push is not a function"), world0)
  ∧ HLSPlayer.off "toString" (UserCb 0) world0 =
      (Throw (TypeError "this.listeners[event].filter is not a function"), world0)
  ∧ HLSPlayer.emit host0 "toString" (NativeEvent "toString") world0 =
      (Throw (TypeError "this.listeners[event].forEach is not a function"), world0).
Proof.
  split.
  - unfold Registry.predefined_keys. rewrite !elem_of_cons, elem_of_nil.
    intros H. repeat (destruct H as [H | H]; [discriminate H|]). exact H.
  - apply inherited_event_throws.
    + cbn [world0 self listeners HLSPlayer.construct].
      rewrite initial_lookup. rewrite bool_decide_eq_false_2; [reflexivity|].
      unfold Registry.predefined_keys. rewrite !elem_of_cons, elem_of_nil.
      intros H. repeat (destruct H as [H | H]; [discriminate H|]). exact H.
    + unfold Registry.object_prototype_names. rewrite !elem_of_cons. tauto.
Qed.

(** ** The keys of the registry *)

Lemma initial_keys :
  dom Registry.initial = list_to_set Registry.predefined_keys.
Proof.
  apply set_eq. intros k. rewrite elem_of_dom, initial_lookup.
  rewrite elem_of_list_to_set.
  destruct (bool_decide_reflect (k ∈ Registry.predefined_keys)) as [Hk|Hk].
  - split; [intros _; exact Hk | intros _; eauto].
  - split; [intros [x Hx]; discriminate Hx | intros H; contradiction].
Qed.

(** [on] and [off] keep the own properties of the registry: as long as
    the player is not destroyed they are the six names. *)
Lemma on_off_keep_keys (event : string) (cb : callback) (w : World) :
  dom (listeners (self (snd (HLSPlayer.on event cb w)))) = dom (listeners (self w))
  ∧ dom (listeners (self (snd (HLSPlayer.off event cb w)))) = dom (listeners (self w)).
Proof.
  unfold HLSPlayer.on, HLSPlayer.off, Registry.lookup. run.
  destruct (listeners (self w) !! event) as [cbs|] eqn:Hl.
  - run. rewrite !dom_insert_lookup_L by eauto. auto.
  - destruct (bool_decide _); auto.
Qed.

(** ** Fatal errors of the engine *)

Lemma add_out_nil (w : World) : add_out [] w = w.
Proof. destruct w. unfold add_out. cbn. now rewrite app_nil_r. Qed.

Lemma add_out_app (es es' : list effect) (w : World) :
  add_out es' (add_out es w) = add_out (es ++ es')%list w.
Proof. unfold add_out. cbn. now rewrite app_assoc. Qed.

Lemma forEach_cons {S A} (f : A → M S unit) (a : A) (l : list A) (s : S) :
  forEach f (a :: l) s =
  match f a s with
  | (Ok _, s') => forEach f l s'
  | (Throw e, s') => (Throw e, s')
  end.
Proof. reflexivity. Qed.

Lemma call_returns (host : Host) (data : payload) (cb : callback) (w : World) :
  listener_throws host cb data = None →
  HLSPlayer.call host data cb w = (Ok tt, add_out [Call cb data] w).
Proof. intros Hcb. unfold HLSPlayer.call. run. now rewrite Hcb. Qed.

(** Listeners that return are called in the order of the array. *)
Lemma forEach_call (host : Host) (data : payload) (cbs : list callback) (w : World) :
  Forall (λ cb, listener_throws host cb data = None) cbs →
  forEach (HLSPlayer.call host data) cbs w =
  (Ok tt, add_out (map (λ cb, Call cb data) cbs) w).
Proof.
  intros Hq. revert w. induction Hq as [| cb cbs Hcb _ IH]; intros w.
  - cbn. now rewrite add_out_nil.
  - rewrite forEach_cons, (call_returns _ _ _ _ Hcb), IH, add_out_app.
    reflexivity.
Qed.

Lemma emit_own (host : Host) (event : string) (data : payload)
      (cbs : list callback) (w : World) :
  listeners (self w) !! event = Some cbs →
  Forall (λ cb, listener_throws host cb data = None) cbs →
  HLSPlayer.emit host event data w =
  (Ok tt, add_out (map (λ cb, Call cb data) cbs) w).
Proof.
  intros Ho Hq. unfold HLSPlayer.emit. run. rewrite (lookup_own _ _ _ Ho).
  now apply forEach_call.
Qed.

(** A fatal network error restarts the load and reaches the listeners. *)
Lemma on_error_network (host : Host) (w : World) (e : nat) (cbs : list callback) :
  let data := {| fatal := true; type := NETWORK_ERROR |} in
  hls (self w) = Some e →
  listeners (self w) !! "error" = Some cbs →
  Forall (λ cb, listener_throws host cb (EngineError data) = None) cbs →
  HLSPlayer.on_error host data w =
  (Ok tt,
   add_out ([ConsoleError "HLS error:";
             ConsoleError "Fatal network error, trying to recover";
             HlsStartLoad e]
            ++ map (λ cb, Call cb (EngineError data)) cbs)%list w).
Proof.
  intros data He Ho Hq. subst data.
  unfold HLSPlayer.on_error, HLSPlayer.on_engine. run.
  rewrite He. run.
  rewrite (emit_own host "error" _ cbs) by assumption.
  f_equal. unfold add_out. cbn. now rewrite <- !app_assoc.
Qed.

(** A fatal media error asks the engine to recover and reaches the
    listeners. *)
Lemma on_error_media (host : Host) (w : World) (e : nat) (cbs : list callback) :
  let data := {| fatal := true; type := MEDIA_ERROR |} in
  hls (self w) = Some e →
  listeners (self w) !! "error" = Some cbs →
  Forall (λ cb, listener_throws host cb (EngineError data) = None) cbs →
  HLSPlayer.on_error host data w =
  (Ok tt,
   add_out ([ConsoleError "HLS error:";
             ConsoleError "Fatal media error, trying to recover";
             HlsRecoverMediaError e]
            ++ map (λ cb, Call cb (EngineError data)) cbs)%list w).
Proof.
  intros data He Ho Hq. subst data.
  unfold HLSPlayer.on_error, HLSPlayer.on_engine. run.
  rewrite He. run.
  rewrite (emit_own host "error" _ cbs) by assumption.
  f_equal. unfold add_out. cbn. now rewrite <- !app_assoc.
Qed.

(** An error that is not fatal only reaches the listeners. *)
Lemma on_error_not_fatal (host : Host) (w : World) (t : ErrorTypes)
      (cbs : list callback) :
  let data := {| fatal := false; type := t |} in
  listeners (self w) !! "error" = Some cbs →
  Forall (λ cb, listener_throws host cb (EngineError data) = None) cbs →
  HLSPlayer.on_error host data w =
  (Ok tt,
   add_out (ConsoleError "HLS error:"
            :: map (λ cb, Call cb (EngineError data)) cbs) w).
Proof.
  intros data Ho Hq. subst data. unfold HLSPlayer.on_error. run.
  rewrite (emit_own host "error" _ cbs) by assumption.
  f_equal. unfold add_out. cbn. now rewrite <- !app_assoc.
Qed.

Lemma lookup_empty_error : Registry.lookup ∅ "error" = Registry.Missing.
Proof. vm_compute. reflexivity. Qed.

(** A fatal error of any other class: [destroy()] runs first and replaces
    the registry by an empty object, so the [emit] that follows finds no
    listener, whatever was registered. *)
Lemma on_error_other (host : Host) (w : World) (t : ErrorTypes) (e : nat) :
  other_class t = true →
  hls (self w) = Some e →
  HLSPlayer.on_error host {| fatal := true; type := t |} w =
  (Ok tt,
   {| self := {| video := HLSPlayer.with_src "" (video (self w));
                 hls := None; options := options (self w); listeners := ∅ |};
      out := (out w ++ [ConsoleError "HLS error:";
                        ConsoleError "Fatal error, cannot recover";
                        HlsDestroy e])%list;
      engines := engines w |}).
Proof.
  intros Ht He.
  destruct t; try discriminate Ht;
    unfold HLSPlayer.on_error, HLSPlayer.destroy, HLSPlayer.emit; run;
    rewrite He; run; rewrite lookup_empty_error;
    rewrite <- !app_assoc; reflexivity.
Qed.

(** C1, at the input where it fails. With one listener registered for
    [error], a fatal error of class [OTHER_ERROR] destroys the engine and
    nothing else is asked of it, but no listener is called: the error is
    not forwarded. *)
Theorem fatal_other_error_not_forwarded :
  let data := {| fatal := true; type := OTHER_ERROR |} in
  listeners (self world_listening) !! "error" = Some [UserCb 0]
  ∧ hls (self world_listening) = Some 0%nat
  ∧ fst (HLSPlayer.on_error host0 data world_listening) = Ok tt
  ∧ out (snd (HLSPlayer.on_error host0 data world_listening)) =
      (out world_listening ++ [ConsoleError "HLS error:";
                               ConsoleError "Fatal error, cannot recover";
                               HlsDestroy 0])%list
  ∧ filter is_call (out (snd (HLSPlayer.on_error host0 data world_listening))) = [].
Proof.
  assert (Hl : listeners (self world_listening) !! "error" = Some [UserCb 0])
    by (vm_compute; reflexivity).
  assert (Hh : hls (self world_listening) = Some 0%nat) by reflexivity.
  cbv zeta. rewrite (on_error_other host0 world_listening OTHER_ERROR 0%nat eq_refl Hh).
  cbn [fst snd out]. repeat split; try assumption.
Qed.

(** ** [destroy] of the adapter *)

Lemma destroy_run (w : World) :
  HLSPlayer.destroy w =
  (Ok tt,
   {| self := {| video := HLSPlayer.with_src "" (video (self w));
                 hls := None; options := options (self w); listeners := ∅ |};
      out := (out w ++ match hls (self w) with
                       | Some e => [HlsDestroy e]
                       | None => []
                       end)%list;
      engines := engines w |}).
Proof.
  unfold HLSPlayer.destroy. run. destruct (hls (self w)) eqn:He; run.
  - reflexivity.
  - now rewrite He, app_nil_r.
Qed.

Lemma lookup_empty_registry (event : string) :
  Registry.lookup ∅ event =
  if bool_decide (event ∈ Registry.object_prototype_names)
  then Registry.Inherited else Registry.Missing.
Proof. unfold Registry.lookup. now rewrite lookup_empty. Qed.

(** The adapter once destroyed: the methods that touch the registry. *)
Lemma destroyed_on_off (w : World) (event : string) (cb : callback) :
  listeners (self w) = ∅ →
  event ∉ Registry.object_prototype_names →
  HLSPlayer.on event cb w = (Ok tt, w) ∧ HLSPlayer.off event cb w = (Ok tt, w).
Proof.
  intros Hl Hp. unfold HLSPlayer.on, HLSPlayer.off. run.
  rewrite Hl, lookup_empty_registry, bool_decide_eq_false_2 by exact Hp. auto.
Qed.

Lemma destroyed_emit_error (host : Host) (w : World) (data : payload) :
  listeners (self w) = ∅ →
  HLSPlayer.emit host "error" data w = (Ok tt, w).
Proof.
  intros Hl. unfold HLSPlayer.emit. run. now rewrite Hl, lookup_empty_error.
Qed.

(** [play()] on a destroyed adapter: the promise it returns is fulfilled,
    also when the element refuses to play, since no listener is left. *)
Lemma destroyed_play (host : Host) (w : World) :
  listeners (self w) = ∅ →
  ∃ w', HLSPlayer.play host w = (Ok (Ok tt), w') ∧ listeners (self w') = ∅
        ∧ hls (self w') = hls (self w) ∧ src (video (self w')) = src (video (self w)).
Proof.
  intros Hl. unfold HLSPlayer.play. run.
  destruct (video_play_rejects host) as [m|]; run.
  - rewrite destroyed_emit_error by exact Hl. eexists. repeat split. exact Hl.
  - eexists. repeat split. exact Hl.
Qed.

(** ** The facade *)

Ltac runp :=
  repeat (cbv beta delta
            [mbind M_bind mret M_ret bind ret throw get modify try_catch async
             await
             VimeoHLSPlayer.set_container VimeoHLSPlayer.set_player
             VimeoHLSPlayer.set_overlay VimeoHLSPlayer.set_videoElement
             VimeoHLSPlayer.tell_all VimeoHLSPlayer.static
             VimeoHLSPlayer.showError] iota;
          cbn [fst snd container settings player overlay videoElement log made
               self out engines]).

Lemma on_player_run {A} (m : M World A) (p : Page) (pl : HLSPlayer) :
  player p = Some pl →
  VimeoHLSPlayer.on_player m p =
  (fst (m {| self := pl; out := log p; engines := made p |}),
   {| container := container p; settings := settings p;
      player := Some (self (snd (m {| self := pl; out := log p; engines := made p |})));
      overlay := overlay p; videoElement := videoElement p;
      log := out (snd (m {| self := pl; out := log p; engines := made p |}));
      made := engines (snd (m {| self := pl; out := log p; engines := made p |})) |}).
Proof.
  intros Hp. unfold VimeoHLSPlayer.on_player. rewrite Hp.
  destruct (m _) as [r w]. reflexivity.
Qed.

Lemma on_player_null {A} (m : M World A) (p : Page) :
  player p = None →
  VimeoHLSPlayer.on_player m p =
  (Throw (TypeError "Cannot read properties of null"), p).
Proof. intros Hp. unfold VimeoHLSPlayer.on_player. now rewrite Hp. Qed.

Lemma facade_destroy_run (p : Page) :
  VimeoHLSPlayer.destroy p = (Ok tt, destroyed p).
Proof.
  unfold VimeoHLSPlayer.destroy, VimeoHLSPlayer.controls_destroy, destroyed.
  destruct p as [k o pl ov ve lg md].
  destruct ov as [ov|], pl as [pl|], ve; runp;
    rewrite ?(on_player_run _ _ pl eq_refl); runp;
    rewrite ?destroy_run; cbn [fst snd self out engines hls];
    try (destruct pl as [v [e|] op ls]; cbn [hls video options]);
    rewrite ?app_nil_r; reflexivity.
Qed.

Lemma filter_idem {A} (P : A → Prop) `{∀ x, Decision (P x)} (l : list A) :
  filter P (filter P l) = filter P l.
Proof.
  induction l as [| a l IH]; [reflexivity|].
  rewrite filter_cons. destruct (decide (P a)) as [Ha|Ha].
  - rewrite filter_cons. rewrite decide_True by exact Ha. now rewrite IH.
  - exact IH.
Qed.

Lemma filter_twice {A} (P Q : A → Prop) `{∀ x, Decision (P x)} `{∀ x, Decision (Q x)}
      (l : list A) :
  filter P (filter Q (filter P (filter Q l))) = filter P (filter Q l).
Proof.
  induction l as [| a l IH]; [reflexivity|].
  rewrite (filter_cons Q a l). destruct (decide (Q a)) as [Hq|Hq]; [|exact IH].
  rewrite (filter_cons P a). destruct (decide (P a)) as [Hp|Hp]; [|exact IH].
  rewrite (filter_cons Q a), decide_True by exact Hq.
  rewrite (filter_cons P a), decide_True by exact Hp.
  now rewrite IH.
Qed.

(** A second [destroy()] changes nothing. *)
Lemma destroyed_idem (p : Page) : destroyed (destroyed p) = destroyed p.
Proof.
  destruct p as [[cl pt ps ht ch] o pl ov ve lg md].
  unfold destroyed, VimeoHLSPlayer.classList_remove, VimeoHLSPlayer.remove_child.
  cbn [container settings player overlay videoElement log made].
  f_equal.
  - destruct ov as [ov|], ve;
      cbn [classList paddingTop position height children id];
      f_equal; first [apply filter_idem | apply filter_twice].
  - destruct pl as [[v h op ls]|]; reflexivity.
  - destruct ov; reflexivity.
  - destruct pl as [[v h op ls]|]; cbn; now rewrite app_nil_r.
Qed.

(** What [destroy()] of the facade does, on any instance whose adapter
    exists: the engine is released if there is one, the source of the media
    element is cleared, the registry is emptied, the element of the overlay
    leaves the container; it returns, also without a prior [loadSource]
    and also a second time; and afterwards every public method returns,
    [on] and [off] for every event name that is not a property of
    [Object.prototype]. *)
Lemma destroy_then_methods (host : Host) (p : Page) (pl : HLSPlayer) :
  player p = Some pl →
  let p' := snd (VimeoHLSPlayer.destroy p) in
  fst (VimeoHLSPlayer.destroy p) = Ok tt
  ∧ log p' = (log p ++ match hls pl with
                       | Some e => [HlsDestroy e]
                       | None => []
                       end)%list
  ∧ (∃ pl', player p' = Some pl' ∧ hls pl' = None ∧ src (video pl') = ""
            ∧ listeners pl' = ∅)
  ∧ (is_Some (overlay p) → ControlsElement ∉ children (container p'))
  ∧ VimeoHLSPlayer.destroy p' = (Ok tt, p')
  ∧ fst (VimeoHLSPlayer.play host p') = Ok (Ok tt)
  ∧ returns VimeoHLSPlayer.pause p'
  ∧ returns (VimeoHLSPlayer.togglePlay host) p'
  ∧ (∀ t, returns (VimeoHLSPlayer.seek t) p')
  ∧ (∀ v, returns (VimeoHLSPlayer.setVolume v) p')
  ∧ returns VimeoHLSPlayer.getVolume p'
  ∧ returns VimeoHLSPlayer.toggleMute p'
  ∧ returns VimeoHLSPlayer.getCurrentTime p'
  ∧ returns VimeoHLSPlayer.getDuration p'
  ∧ (∀ event cb, event ∉ Registry.object_prototype_names →
       returns (VimeoHLSPlayer.on event cb) p'
       ∧ returns (VimeoHLSPlayer.off event cb) p').
Proof.
  intros Hp p'. subst p'. rewrite facade_destroy_run. cbn [fst snd].
  set (pl' := {| video := HLSPlayer.with_src "" (video pl); hls := None;
                 options := options pl; listeners := ∅ |}).
  assert (Hp' : player (destroyed p) = Some pl')
    by (unfold destroyed; cbn [player]; now rewrite Hp).
  split; [reflexivity|]. split.
  { unfold destroyed. cbn [log]. rewrite Hp. now destruct pl as [v [e|] op ls]. }
  split. { exists pl'. repeat split. exact Hp'. }
  split.
  { intros [ov Hov]. unfold destroyed. cbn [container]. rewrite Hov.
    unfold VimeoHLSPlayer.classList_remove. cbn [children].
    destruct (videoElement p); cbn [id VimeoHLSPlayer.remove_child children];
      rewrite ?list_elem_of_filter; tauto. }
  split. { rewrite facade_destroy_run. now rewrite destroyed_idem. }
  unfold returns, VimeoHLSPlayer.play, VimeoHLSPlayer.pause,
    VimeoHLSPlayer.togglePlay, VimeoHLSPlayer.seek, VimeoHLSPlayer.setVolume,
    VimeoHLSPlayer.getVolume, VimeoHLSPlayer.toggleMute,
    VimeoHLSPlayer.getCurrentTime, VimeoHLSPlayer.getDuration,
    VimeoHLSPlayer.on, VimeoHLSPlayer.off.
  split.
  { rewrite (on_player_run _ _ _ Hp'). cbn [fst].
    destruct (destroyed_play host {| self := pl'; out := log (destroyed p);
                                     engines := made (destroyed p) |} eq_refl)
      as (w' & Hw' & _). now rewrite Hw'. }
  split. { rewrite (on_player_run _ _ _ Hp'). eexists. reflexivity. }
  split.
  { rewrite (on_player_run _ _ _ Hp'). cbn [fst].
    unfold HLSPlayer.togglePlay. run.
    destruct (paused _); [|eexists; reflexivity].
    destruct (destroyed_play host {| self := pl'; out := log (destroyed p);
                                     engines := made (destroyed p) |} eq_refl)
      as (w' & Hw' & _). rewrite Hw'. eexists. reflexivity. }
  split. { intros t. rewrite (on_player_run _ _ _ Hp'). eexists. reflexivity. }
  split. { intros v. rewrite (on_player_run _ _ _ Hp'). eexists. reflexivity. }
  split. { rewrite (on_player_run _ _ _ Hp'). eexists. reflexivity. }
  split. { rewrite (on_player_run _ _ _ Hp'). eexists. reflexivity. }
  split. { rewrite (on_player_run _ _ _ Hp'). eexists. reflexivity. }
  split. { rewrite (on_player_run _ _ _ Hp'). eexists. reflexivity. }
  intros event cb Hev. rewrite !(on_player_run _ _ _ Hp'). cbn [fst].
  destruct (destroyed_on_off {| self := pl'; out := log (destroyed p);
                                engines := made (destroyed p) |} event cb
              eq_refl Hev) as [Hon Hoff].
  rewrite Hon, Hoff. split; eexists; reflexivity.
Qed.

Example page0_constructed :
  VimeoHLSPlayer.construct host0 (Some container0) defaults [] = Ok page0.
Proof. unfold VimeoHLSPlayer.construct, page0. reflexivity. Qed.

Example page0_children :
  children (container page0) = [VideoElement; ControlsElement]
  ∧ classList (container page0) = ["vimeo-hls-player"]
  ∧ is_Some (player page0) ∧ is_Some (overlay page0).
Proof. vm_compute. repeat split; eauto. Qed.

(** C2, at the input where it fails. After [destroy()] on a freshly
    constructed player, [on('toString', cb)] and [off('toString', cb)]
    throw a [TypeError]: the emptied registry still inherits [toString]
    from [Object.prototype]. *)
Theorem destroy_then_on_toString_throws :
  fst (VimeoHLSPlayer.destroy page0) = Ok tt
  ∧ fst (VimeoHLSPlayer.on "toString" (UserCb 0)
           (snd (VimeoHLSPlayer.destroy page0))) =
      Throw (TypeError "this.listeners[event].push is not a function")
  ∧ fst (VimeoHLSPlayer.off "toString" (UserCb 0)
           (snd (VimeoHLSPlayer.destroy page0))) =
      Throw (TypeError "this.listeners[event].filter is not a function").
Proof. vm_compute. repeat split. Qed.

(** ** The adapter of a constructed facade *)

Lemma keeps_ret {A} (a : A) : keeps_player (ret a).
Proof. intros p Hp. exact Hp. Qed.

Lemma keeps_throw {A} (e : exn) : keeps_player (@throw Page A e).
Proof. intros p Hp. exact Hp. Qed.

Lemma keeps_bind {A B} (m : M Page A) (k : A → M Page B) :
  keeps_player m → (∀ a, keeps_player (k a)) → keeps_player (m ≫= k).
Proof.
  intros Hm Hk p Hp. specialize (Hm p Hp).
  unfold mbind, M_bind, bind. destruct (m p) as [[a|e] p1]; cbn [snd] in *.
  - now apply Hk.
  - exact Hm.
Qed.

Lemma keeps_try_catch {A} (m : M Page A) (h : exn → M Page A) :
  keeps_player m → (∀ e, keeps_player (h e)) → keeps_player (try_catch m h).
Proof.
  intros Hm Hh p Hp. specialize (Hm p Hp).
  unfold try_catch. destruct (m p) as [[a|e] p1]; cbn [snd] in *.
  - exact Hm.
  - now apply Hh.
Qed.

Lemma keeps_async {A} (m : M Page A) : keeps_player m → keeps_player (async m).
Proof.
  intros Hm p Hp. specialize (Hm p Hp). unfold async.
  destruct (m p) as [r p1]. exact Hm.
Qed.

Lemma keeps_await {A} (m : M Page (outcome A)) :
  keeps_player m → keeps_player (await m).
Proof.
  intros Hm. unfold await. apply keeps_bind; [exact Hm|].
  intros [a|e]; [apply keeps_ret | apply keeps_throw].
Qed.

Lemma keeps_get : keeps_player get.
Proof. intros p Hp. exact Hp. Qed.

Lemma keeps_set_container (f : Container → Container) :
  keeps_player (VimeoHLSPlayer.set_container f).
Proof. intros p Hp. exact Hp. Qed.

Lemma keeps_set_overlay (o : option Overlay) :
  keeps_player (VimeoHLSPlayer.set_overlay o).
Proof. intros p Hp. exact Hp. Qed.

Lemma keeps_tell_all (es : list effect) : keeps_player (VimeoHLSPlayer.tell_all es).
Proof. intros p Hp. exact Hp. Qed.

Lemma keeps_on_player {A} (m : M World A) :
  keeps_player (VimeoHLSPlayer.on_player m).
Proof.
  intros p [pl Hp]. rewrite (on_player_run _ _ pl Hp). cbn [snd player]. eauto.
Qed.

Lemma keeps_static {A} (c : list effect * outcome A) :
  keeps_player (VimeoHLSPlayer.static c).
Proof.
  unfold VimeoHLSPlayer.static. apply keeps_bind; [apply keeps_tell_all|].
  intros _. destruct (snd c); [apply keeps_ret | apply keeps_throw].
Qed.

Create HintDb keeps.
#[local] Hint Resolve keeps_ret keeps_throw keeps_async keeps_await keeps_get
  keeps_set_container keeps_set_overlay keeps_tell_all keeps_on_player
  keeps_static : keeps.

Ltac keeps :=
  repeat first
    [ apply keeps_bind; [|intros ?]
    | apply keeps_try_catch; [|intros ?]
    | apply keeps_async
    | apply keeps_await
    | solve [auto with keeps]
    | match goal with
      | |- keeps_player (if ?b then _ else _) => destruct b
      | |- keeps_player (match ?x with _ => _ end) => destruct x
      end ].

Lemma keeps_loadHLS (host : Host) (url : jsval) :
  keeps_player (VimeoHLSPlayer.loadHLS host url).
Proof. unfold VimeoHLSPlayer.loadHLS, VimeoHLSPlayer.showError. keeps. Qed.

Lemma keeps_loadVimeo (host : Host) (vimeoId : string) (token : jsval) :
  keeps_player (VimeoHLSPlayer.loadVimeo host vimeoId token).
Proof.
  pose proof (keeps_loadHLS host) as Hl.
  unfold VimeoHLSPlayer.loadVimeo, VimeoHLSPlayer.showError. keeps.
Qed.

Lemma keeps_new_VideoControls : keeps_player VimeoHLSPlayer.new_VideoControls.
Proof. unfold VimeoHLSPlayer.new_VideoControls. keeps. Qed.

Lemma bind_returns {S A B} (m : M S A) (k : A → M S B) (s s1 : S) (a : A) :
  m s = (Ok a, s1) → (m ≫= k) s = k a s1.
Proof. intros H. unfold mbind, M_bind, bind. now rewrite H. Qed.

Lemma setupContainer_returns (host : Host) (p : Page) :
  ∃ p1, VimeoHLSPlayer.setupContainer host p = (Ok tt, p1).
Proof.
  unfold VimeoHLSPlayer.setupContainer. runp.
  destruct (truthy (aspectRatio (settings p))); runp; eexists; reflexivity.
Qed.

Lemma createVideoElement_returns (p : Page) :
  ∃ v p1, VimeoHLSPlayer.createVideoElement p = (Ok v, p1).
Proof. unfold VimeoHLSPlayer.createVideoElement. runp. eexists _, _. reflexivity. Qed.

(** Every constructed facade has its adapter: the public methods never
    find [this.player] unset. *)
Lemma constructed_has_player (host : Host) (k : Container) (o : PlaybackOptions)
      (l : list effect) (p : Page) :
  VimeoHLSPlayer.construct host (Some k) o l = Ok p → is_Some (player p).
Proof.
  unfold VimeoHLSPlayer.construct. intros H. inversion H; subst p; clear H.
  set (p0 := {| container := k; settings := o; player := None; overlay := None;
                videoElement := false; log := l; made := 0 |}).
  unfold VimeoHLSPlayer.initialize, async.
  destruct (setupContainer_returns host p0) as [p1 H1].
  rewrite (bind_returns _ _ _ _ _ H1).
  destruct (createVideoElement_returns p1) as (v & p2 & H2).
  rewrite (bind_returns _ _ _ _ _ H2).
  rewrite (bind_returns get _ p2 p2 p2 eq_refl).
  match goal with
  | |- context [VimeoHLSPlayer.set_player ?x ≫= ?rest] =>
      rewrite (bind_returns (VimeoHLSPlayer.set_player x) rest p2
                 (snd (VimeoHLSPlayer.set_player x p2)) tt eq_refl);
      assert (Hk : keeps_player (rest tt))
  end.
  { pose proof (keeps_loadHLS host) as Hl.
    pose proof (keeps_loadVimeo host) as Hv.
    pose proof keeps_new_VideoControls as Hc.
    keeps. }
  match goal with
  | |- is_Some (player (snd (let (_, _) := ?m ?q in _))) =>
      specialize (Hk q); destruct (m q) as [r q']
  end.
  cbn [snd] in *. apply Hk. cbn. eauto.
Qed.

(** ** [setupContainer] *)








(** The ratio [16:9] gives 56.25. *)
Example ratio_16_9 (host : Host) :
  Num.mul (Num.div (VimeoHLSPlayer.Number host "9") (VimeoHLSPlayer.Number host "16"))
          (Num.of_Z 100) = Fin (qz 225 4).
Proof.
  unfold VimeoHLSPlayer.Number. cbn [VimeoAPI.numeric Str.all_digits].
  unfold Num.of_Z, Num.div, Num.mul.
  rewrite bool_decide_eq_false_2 by (intros H; discriminate H).
  f_equal. apply Qc_is_canon. reflexivity.
Qed.

(** ** The calls a load makes *)

(** The log of the adapter only grows. *)
Lemma forEach_call_grows (host : Host) (data : payload) (cbs : list callback)
      (w : World) :
  ∃ es, snd (forEach (HLSPlayer.call host data) cbs w) = add_out es w.
Proof.
  revert w. induction cbs as [| cb cbs IH]; intros w.
  - exists []. cbn. now rewrite add_out_nil.
  - rewrite forEach_cons. unfold HLSPlayer.call at 1. run.
    destruct (listener_throws host cb data) as [m|]; run.
    + exists [Call cb data]. reflexivity.
    + destruct (IH (add_out [Call cb data] w)) as [es Hes].
      exists (Call cb data :: es). unfold add_out in Hes. cbn in Hes.
      rewrite Hes. unfold add_out. cbn. now rewrite <- app_assoc.
Qed.

Lemma emit_grows (host : Host) (event : string) (data : payload) (w : World) :
  ∃ es, snd (HLSPlayer.emit host event data w) = add_out es w.
Proof.
  unfold HLSPlayer.emit. run.
  destruct (Registry.lookup (listeners (self w)) event) as [| cbs |].
  - exists []. cbn. now rewrite add_out_nil.
  - apply forEach_call_grows.
  - exists []. cbn. now rewrite add_out_nil.
Qed.

Lemma loadSource_grows (host : Host) (url : jsval) (w : World) :
  ∃ es, out (snd (HLSPlayer.loadSource host url w)) = (out w ++ es)%list.
Proof.
  unfold HLSPlayer.loadSource, HLSPlayer.new_engine.
  destruct (truthy url); cbn [negb]; run; [|eexists; reflexivity].
  destruct (Hls_isSupported host); run.
  { eexists. rewrite <- !app_assoc. reflexivity. }
  destruct (canPlayType_hls host); run.
  { exists []. now rewrite app_nil_r. }
  match goal with
  | |- context [HLSPlayer.emit host ?ev ?d ?w0] =>
      destruct (emit_grows host ev d w0) as [es Hes]; rewrite Hes
  end.
  unfold add_out. cbn [out]. eexists. rewrite <- app_assoc. reflexivity.
Qed.

Lemma on_silent (event : string) (cb : callback) (w : World) :
  out (snd (HLSPlayer.on event cb w)) = out w.
Proof.
  unfold HLSPlayer.on. run.
  destruct (Registry.lookup (listeners (self w)) event); reflexivity.
Qed.

(** [loadHLS] returns a fulfilled promise and only adds to the log. *)
Lemma loadHLS_grows (host : Host) (url : jsval) (p : Page) :
  ∃ es, fst (VimeoHLSPlayer.loadHLS host url p) = Ok (Ok tt)
        ∧ log (snd (VimeoHLSPlayer.loadHLS host url p)) = (log p ++ es)%list.
Proof.
  unfold VimeoHLSPlayer.loadHLS. runp.
  destruct (player p) as [pl|] eqn:Hp.
  2:{ rewrite on_player_null by reflexivity. runp. exists []. now rewrite app_nil_r. }
  rewrite (on_player_run _ _ pl) by reflexivity.
  cbn [fst snd container settings player overlay videoElement log made].
  set (w0 := {| self := pl; out := log p; engines := made p |}).
  destruct (loadSource_grows host url w0) as [es Hes].
  destruct (HLSPlayer.loadSource host url w0) as [[[]|e] w1] eqn:Hl;
    cbn [fst snd] in *; runp.
  - rewrite (on_player_run _ _ (self w1)) by reflexivity. cbn [fst snd log].
    pose proof (on_silent "loadedmetadata" RemoveLoading
                  {| self := self w1; out := out w1; engines := engines w1 |}) as Hs.
    destruct (HLSPlayer.on _ _ _) as [[[]|e] w2]; cbn [fst snd out] in *; runp;
      exists es; rewrite Hs, Hes; auto.
  - exists es. rewrite Hes. auto.
Qed.

(** When the player page gives no URL, [getHLSFromPlayer] makes one fetch,
    reports on the console and throws. *)
Lemma getHLSFromPlayer_fails (host : Host) (videoId : string) (e : exn) :
  snd (VimeoAPI.getHLSFromPlayer host videoId) = Throw e →
  fst (VimeoAPI.getHLSFromPlayer host videoId) =
  [Fetch ("https://player.vimeo.com/video/" +:+ videoId) None;
   ConsoleError "Error getting HLS from player:"].
Proof.
  unfold VimeoAPI.getHLSFromPlayer.
  destruct (player_page host _) as [[|c r]|m]; cbn [fst snd];
    intros H; try discriminate H; reflexivity.
Qed.

Lemma getHLSFromPlayer_first (host : Host) (videoId : string) :
  ∃ es, fst (VimeoAPI.getHLSFromPlayer host videoId) =
        Fetch ("https://player.vimeo.com/video/" +:+ videoId) None :: es.
Proof.
  unfold VimeoAPI.getHLSFromPlayer.
  destruct (player_page host _) as [[|c r]|m]; cbn [fst]; eexists; reflexivity.
Qed.

(** C6. When [loadVimeo] is called, the resolution from the player page
    fails and no access token is given, the facade appends an error panel
    whose message is the token-required text, never calls [loadSource]
    (the adapter is as it was and the log holds the fetch and the two
    console lines only), and the promise it returns is fulfilled: nothing
    is thrown to the caller. *)
Theorem loadVimeo_without_token (host : Host) (p : Page) (vimeoId : string)
        (accessToken : jsval) (e : exn) :
  let videoId := VimeoHLSPlayer.or_else (VimeoAPI.extractVideoId vimeoId) vimeoId in
  snd (VimeoAPI.getHLSFromPlayer host videoId) = Throw e →
  truthy accessToken = false →
  let p' := snd (VimeoHLSPlayer.loadVimeo host vimeoId accessToken p) in
  fst (VimeoHLSPlayer.loadVimeo host vimeoId accessToken p) = Ok (Ok tt)
  ∧ children (container p') =
      (children (container p)
       ++ [ErrorElement "Failed to load Vimeo video" token_required])%list
  ∧ player p' = player p
  ∧ log p' =
      (log p ++ [Fetch ("https://player.vimeo.com/video/" +:+ videoId) None;
                 ConsoleError "Error getting HLS from player:";
                 ConsoleLog "Could not get HLS from player, trying API..."])%list
  ∧ "loading" ∉ classList (container p').
Proof.
  intros videoId Hfail Htok p'. subst p'.
  pose proof (getHLSFromPlayer_fails host videoId e Hfail) as Hfx.
  unfold VimeoHLSPlayer.loadVimeo. fold videoId. runp.
  rewrite Hfail, Hfx. runp. rewrite Htok. runp.
  repeat split.
  - now rewrite <- app_assoc.
  - unfold VimeoHLSPlayer.classList_remove, VimeoHLSPlayer.appendChild.
    cbn [classList]. rewrite list_elem_of_filter. tauto.
Qed.

Lemma loadVimeo_without_token_witness :
  let p' := snd (VimeoHLSPlayer.loadVimeo host0 "76979871" Null page0) in
  fst (VimeoHLSPlayer.loadVimeo host0 "76979871" Null page0) = Ok (Ok tt)
  ∧ children (container p') =
      (children (container page0)
       ++ [ErrorElement "Failed to load Vimeo video" token_required])%list
  ∧ player p' = player page0
  ∧ log p' =
      (log page0 ++ [Fetch "https://player.vimeo.com/video/76979871" None;
                     ConsoleError "Error getting HLS from player:";
                     ConsoleLog "Could not get HLS from player, trying API..."])%list
  ∧ "loading" ∉ classList (container p').
Proof.
  apply (loadVimeo_without_token host0 page0 "76979871" Null (Error "Failed to fetch"));
    reflexivity.
Defined.

(** C3, refuted. ["abc"] has none of the three shapes and is not numeric,
    and [loadVimeo] goes on to fetch the player page with ["abc"] as the
    identifier; what it shows in the end is the token-required error. *)
Lemma loadVimeo_fetches_raw_input :
  VimeoAPI.extractVideoId "abc" = None
  ∧ Fetch "https://player.vimeo.com/video/abc" None
      ∈ log (snd (VimeoHLSPlayer.loadVimeo host0 "abc" Null page0))
  ∧ ErrorElement "Failed to load Vimeo video" token_required
      ∈ children (container (snd (VimeoHLSPlayer.loadVimeo host0 "abc" Null page0))).
Proof.
  split; [reflexivity|].
  assert (Hlog : log (snd (VimeoHLSPlayer.loadVimeo host0 "abc" Null page0)) =
                 [Fetch "https://player.vimeo.com/video/abc" None;
                  ConsoleError "Error getting HLS from player:";
                  ConsoleLog "Could not get HLS from player, trying API..."])
    by (vm_compute; reflexivity).
  assert (Hch : children (container
                  (snd (VimeoHLSPlayer.loadVimeo host0 "abc" Null page0))) =
                [VideoElement; ControlsElement;
                 ErrorElement "Failed to load Vimeo video" token_required])
    by (vm_compute; reflexivity).
  rewrite Hlog, Hch. split.
  - apply elem_of_cons. now left.
  - rewrite !elem_of_cons. tauto.
Qed.

(** ** [loadVimeo] on an input that is no identifier *)

Ltac use_loadHLS host :=
  match goal with
  | |- context [VimeoHLSPlayer.loadHLS host ?u ?q] =>
      let es := fresh "es" in
      let Hr := fresh "Hr" in
      let Hl := fresh "Hl" in
      let r := fresh "r" in
      let q' := fresh "q" in
      destruct (loadHLS_grows host u q) as (es & Hr & Hl);
      destruct (VimeoHLSPlayer.loadHLS host u q) as [r q'];
      cbn [fst snd log] in Hr, Hl; subst r; runp; rewrite ?Hl
  end.

(** Whatever the network answers, when [extractVideoId] returns [null] the
    first call [loadVimeo] makes is the fetch of the player page of the
    input itself. *)
Lemma loadVimeo_null_id (host : Host) (p : Page) (s : string) (token : jsval) :
  VimeoAPI.extractVideoId s = None →
  ∃ es, log (snd (VimeoHLSPlayer.loadVimeo host s token p)) =
        (log p ++ Fetch ("https://player.vimeo.com/video/" +:+ s) None :: es)%list.
Proof.
  intros Hx. unfold VimeoHLSPlayer.loadVimeo. rewrite Hx.
  cbn [VimeoHLSPlayer.or_else]. unfold VimeoAPI.getHLSFromPlayer, VimeoAPI.getVideoData.
  runp.
  destruct (player_page host _) as [[|c r]|m]; runp.
  - destruct (truthy token); runp; [|eexists; rewrite <- !app_assoc; reflexivity].
    destruct (api_video host _ _) as [[link|]|m']; runp;
      try (eexists; rewrite <- !app_assoc; reflexivity).
    destruct (truthy (Str link)); runp;
      [|eexists; rewrite <- !app_assoc; reflexivity].
    use_loadHLS host. eexists. rewrite <- !app_assoc. reflexivity.
  - use_loadHLS host. eexists. rewrite <- !app_assoc. reflexivity.
  - destruct (truthy token); runp; [|eexists; rewrite <- !app_assoc; reflexivity].
    destruct (api_video host _ _) as [[link|]|m']; runp;
      try (eexists; rewrite <- !app_assoc; reflexivity).
    destruct (truthy (Str link)); runp;
      [|eexists; rewrite <- !app_assoc; reflexivity].
    use_loadHLS host. eexists. rewrite <- !app_assoc. reflexivity.
Qed.

(** C3, amended. For an input that has none of the three shapes and is
    not purely numeric, [extractVideoId] returns [null] and [loadVimeo]
    takes the input itself as the identifier: the first call it makes is
    the fetch of the player page of that input. *)
Theorem loadVimeo_falls_back_to_input (host : Host) (p : Page) (s : string)
        (token : jsval) :
  (∀ lit, lit ∈ VimeoAPI.patterns → ¬ has_shape lit s) →
  ¬ digit_group s →
  VimeoAPI.extractVideoId s = None
  ∧ ∃ es, log (snd (VimeoHLSPlayer.loadVimeo host s token p)) =
          (log p ++ Fetch ("https://player.vimeo.com/video/" +:+ s) None :: es)%list.
Proof.
  intros Hno Hnum. pose proof (extract_none s Hno Hnum) as Hx.
  split; [exact Hx | now apply loadVimeo_null_id].
Qed.

Lemma loadVimeo_falls_back_to_input_witness :
  VimeoAPI.extractVideoId "abc" = None
  ∧ ∃ es, log (snd (VimeoHLSPlayer.loadVimeo host0 "abc" Null page0)) =
          (log page0 ++ Fetch ("https://player.vimeo.com/video/" +:+ "abc") None :: es)%list.
Proof.
  apply (loadVimeo_falls_back_to_input host0 page0 "abc" Null).
  - intros lit Hlit. apply no_shape_iff.
    unfold VimeoAPI.patterns in Hlit. rewrite !elem_of_cons, elem_of_nil in Hlit.
    destruct Hlit as [-> | [-> | [-> | []]]]; reflexivity.
  - intros [_ H]. discriminate H.
Defined.

(** ** Subscribing, unsubscribing and dispatch order *)

Lemma world_eta (w : World) :
  {| self := {| video := video (self w); hls := hls (self w);
                options := options (self w); listeners := listeners (self w) |};
     out := out w; engines := engines w |} = w.
Proof. destruct w as [[v h o l] ou en]. reflexivity. Qed.

Lemma on_run (event : string) (cb : callback) (cbs : list callback) (w : World) :
  listeners (self w) !! event = Some cbs →
  HLSPlayer.on event cb w =
  (Ok tt,
   {| self := {| video := video (self w); hls := hls (self w);
                 options := options (self w);
                 listeners := <[event := (cbs ++ [cb])%list]> (listeners (self w)) |};
      out := out w; engines := engines w |}).
Proof.
  intros Hl. unfold HLSPlayer.on. run. now rewrite (lookup_own _ _ _ Hl).
Qed.

Lemma off_run (event : string) (cb : callback) (cbs : list callback) (w : World) :
  listeners (self w) !! event = Some cbs →
  HLSPlayer.off event cb w =
  (Ok tt,
   {| self := {| video := video (self w); hls := hls (self w);
                 options := options (self w);
                 listeners := <[event := filter (λ c, c ≠ cb) cbs]> (listeners (self w)) |};
      out := out w; engines := engines w |}).
Proof.
  intros Hl. unfold HLSPlayer.off. run. now rewrite (lookup_own _ _ _ Hl).
Qed.

(** X1. Insertion order is dispatch order: after [on(event, cb)] for an
    event of the registry, the callback is the last of its array, the
    arrays of the other events are as before, and [emit(event, data)]
    calls the former listeners in their order and then [cb], as long as
    none of them throws. *)
Theorem on_then_emit (host : Host) (w : World) (event : string) (cb : callback)
        (cbs : list callback) (data : payload) :
  listeners (self w) !! event = Some cbs →
  Forall (λ c, listener_throws host c data = None) (cbs ++ [cb]) →
  let w1 := snd (HLSPlayer.on event cb w) in
  listeners (self w1) !! event = Some (cbs ++ [cb])%list
  ∧ (∀ other, other ≠ event →
       listeners (self w1) !! other = listeners (self w) !! other)
  ∧ HLSPlayer.emit host event data w1 =
      (Ok tt, add_out (map (λ c, Call c data) (cbs ++ [cb])) w1).
Proof.
  intros Hl Hq w1. subst w1. rewrite (on_run _ _ _ _ Hl). cbn [snd].
  split; [|split].
  - cbn [self listeners]. apply lookup_insert_eq.
  - intros other Hne. cbn [self listeners]. now apply lookup_insert_ne.
  - apply emit_own; [|exact Hq]. cbn [self listeners]. apply lookup_insert_eq.
Qed.

Lemma on_then_emit_witness :
  let w1 := snd (HLSPlayer.on "play" (UserCb 7) world_three) in
  listeners (self w1) !! "play" = Some [UserCb 0; UserCb 1; UserCb 2; UserCb 7]
  ∧ (∀ other, other ≠ "play" →
       listeners (self w1) !! other = listeners (self world_three) !! other)
  ∧ HLSPlayer.emit host0 "play" (NativeEvent "play") w1 =
      (Ok tt, add_out (map (λ c, Call c (NativeEvent "play"))
                           [UserCb 0; UserCb 1; UserCb 2; UserCb 7]) w1).
Proof.
  apply (on_then_emit host0 world_three "play" (UserCb 7)
           [UserCb 0; UserCb 1; UserCb 2] (NativeEvent "play")).
  - vm_compute. reflexivity.
  - repeat constructor.
Defined.

Lemma filter_out_absent (cb : callback) (cbs : list callback) :
  cb ∉ cbs → filter (λ c, c ≠ cb) cbs = cbs.
Proof.
  induction cbs as [| c cbs IH]; intros Hn; [reflexivity|].
  rewrite not_elem_of_cons in Hn. destruct Hn as [Hc Hn].
  rewrite filter_cons, decide_True by congruence. now rewrite IH.
Qed.

(** X2. [off(event, cb)] removes every occurrence of [cb] from the array of
    the event and keeps the other callbacks in their order; the arrays of
    the other events are untouched. *)
Theorem off_removes_every_occurrence (w : World) (event : string) (cb : callback)
        (cbs : list callback) :
  listeners (self w) !! event = Some cbs →
  let w1 := snd (HLSPlayer.off event cb w) in
  listeners (self w1) !! event = Some (filter (λ c, c ≠ cb) cbs)
  ∧ (cb ∉ filter (λ c, c ≠ cb) cbs)
  ∧ (∀ other, other ≠ event →
       listeners (self w1) !! other = listeners (self w) !! other).
Proof.
  intros Hl w1. subst w1. rewrite (off_run _ _ _ _ Hl). cbn [snd self listeners].
  split; [apply lookup_insert_eq|]. split.
  - rewrite list_elem_of_filter. tauto.
  - intros other Hne. now apply lookup_insert_ne.
Qed.

Lemma off_removes_every_occurrence_witness :
  let w := snd (HLSPlayer.on "play" (UserCb 0) world_three) in
  let w1 := snd (HLSPlayer.off "play" (UserCb 0) w) in
  listeners (self w1) !! "play" =
    Some (filter (λ c, c ≠ UserCb 0) [UserCb 0; UserCb 1; UserCb 2; UserCb 0])
  ∧ (UserCb 0 ∉ filter (λ c, c ≠ UserCb 0) [UserCb 0; UserCb 1; UserCb 2; UserCb 0])
  ∧ (∀ other, other ≠ "play" →
       listeners (self w1) !! other = listeners (self w) !! other).
Proof.
  apply (off_removes_every_occurrence
           (snd (HLSPlayer.on "play" (UserCb 0) world_three)) "play" (UserCb 0)
           [UserCb 0; UserCb 1; UserCb 2; UserCb 0]).
  vm_compute. reflexivity.
Defined.

(** X3. [on(event, cb)] followed by [off(event, cb)], for a callback that
    was not registered for the event, gives back the player as it was. *)
Theorem on_then_off_restores (w : World) (event : string) (cb : callback)
        (cbs : list callback) :
  listeners (self w) !! event = Some cbs →
  cb ∉ cbs →
  HLSPlayer.off event cb (snd (HLSPlayer.on event cb w)) = (Ok tt, w).
Proof.
  intros Hl Hn. rewrite (on_run _ _ _ _ Hl). cbn [snd].
  rewrite (off_run _ _ (cbs ++ [cb])%list)
    by (cbn [self listeners]; apply lookup_insert_eq).
  cbn [self listeners video hls options out engines].
  rewrite insert_insert_eq, filter_app, filter_out_absent by exact Hn.
  rewrite filter_cons, decide_False by tauto.
  rewrite filter_nil, app_nil_r, insert_id by exact Hl.
  now rewrite world_eta.
Qed.

Lemma on_then_off_restores_witness :
  HLSPlayer.off "play" (UserCb 7) (snd (HLSPlayer.on "play" (UserCb 7) world_three))
  = (Ok tt, world_three).
Proof.
  apply (on_then_off_restores world_three "play" (UserCb 7)
           [UserCb 0; UserCb 1; UserCb 2]).
  - vm_compute. reflexivity.
  - rewrite !elem_of_cons, elem_of_nil. intros H.
    repeat (destruct H as [H | H]; [discriminate H|]). exact H.
Defined.

Lemma call_throws (host : Host) (data : payload) (cb : callback) (m : string)
      (w : World) :
  listener_throws host cb data = Some m →
  HLSPlayer.call host data cb w = (Throw (Error m), add_out [Call cb data] w).
Proof. intros Hcb. unfold HLSPlayer.call. run. now rewrite Hcb. Qed.

Lemma forEach_call_stops (host : Host) (data : payload) (before after : list callback)
      (cb : callback) (m : string) (w : World) :
  Forall (λ c, listener_throws host c data = None) before →
  listener_throws host cb data = Some m →
  forEach (HLSPlayer.call host data) (before ++ cb :: after) w =
  (Throw (Error m),
   add_out (map (λ c, Call c data) before ++ [Call cb data])%list w).
Proof.
  intros Hq Hcb. revert w. induction Hq as [| c before Hc _ IH]; intros w.
  - cbn [app map]. now rewrite forEach_cons, (call_throws _ _ _ _ _ Hcb).
  - cbn [app map]. rewrite forEach_cons, (call_returns _ _ _ _ Hc), IH, add_out_app.
    reflexivity.
Qed.

(** X4. Listeners are not isolated from each other: when a listener
    throws, [emit] has called the listeners before it and that one, calls
    none of those after it, and throws what the listener threw. *)
Theorem emit_stops_at_throwing_listener (host : Host) (w : World) (event : string)
        (data : payload) (before after : list callback) (cb : callback) (m : string) :
  listeners (self w) !! event = Some (before ++ cb :: after)%list →
  Forall (λ c, listener_throws host c data = None) before →
  listener_throws host cb data = Some m →
  HLSPlayer.emit host event data w =
  (Throw (Error m),
   add_out (map (λ c, Call c data) before ++ [Call cb data])%list w).
Proof.
  intros Hl Hq Hcb. unfold HLSPlayer.emit. run. rewrite (lookup_own _ _ _ Hl).
  now apply forEach_call_stops.
Qed.

Lemma emit_stops_at_throwing_listener_witness :
  HLSPlayer.emit host_throwing "play" (NativeEvent "play") world_three =
  (Throw (Error "boom"),
   add_out (map (λ c, Call c (NativeEvent "play")) [UserCb 0]
            ++ [Call (UserCb 1) (NativeEvent "play")])%list world_three).
Proof.
  apply (emit_stops_at_throwing_listener host_throwing world_three "play"
           (NativeEvent "play") [UserCb 0] [UserCb 2] (UserCb 1) "boom").
  - vm_compute. reflexivity.
  - repeat constructor.
  - reflexivity.
Defined.

(** ** Errors of the engine that are recovered or only reported *)

(** X5. For an error of the engine that is not fatal, or fatal of the
    network or the media class, the handler leaves the player as it is,
    asks the engine for the recovery of the class (a restart of the load,
    a media recovery, nothing when not fatal) and then passes the data to
    every [error] listener in subscription order. *)
Theorem recoverable_error_forwarded (host : Host) (w : World) (data : ErrorData)
        (e : nat) (cbs : list callback) :
  fatal data = false ∨ type data = NETWORK_ERROR ∨ type data = MEDIA_ERROR →
  hls (self w) = Some e →
  listeners (self w) !! "error" = Some cbs →
  Forall (λ cb, listener_throws host cb (EngineError data) = None) cbs →
  HLSPlayer.on_error host data w =
  (Ok tt,
   add_out (ConsoleError "HLS error:"
            :: recovery data e ++ map (λ cb, Call cb (EngineError data)) cbs)%list w).
Proof.
  intros Hc He Hl Hq. destruct data as [f t]. cbn [fatal type] in Hc.
  unfold recovery. cbn [fatal type].
  destruct f.
  - destruct Hc as [Hc | [-> | ->]]; [discriminate Hc | |].
    + now rewrite (on_error_network host w e cbs).
    + now rewrite (on_error_media host w e cbs).
  - now rewrite (on_error_not_fatal host w t cbs).
Qed.

Lemma recoverable_error_forwarded_witness :
  HLSPlayer.on_error host0 {| fatal := true; type := NETWORK_ERROR |} world_listening =
  (Ok tt,
   add_out (ConsoleError "HLS error:"
            :: recovery {| fatal := true; type := NETWORK_ERROR |} 0
            ++ map (λ cb, Call cb (EngineError {| fatal := true; type := NETWORK_ERROR |}))
                   [UserCb 0])%list world_listening).
Proof.
  apply (recoverable_error_forwarded host0 world_listening
           {| fatal := true; type := NETWORK_ERROR |} 0%nat [UserCb 0]).
  - right. left. reflexivity.
  - reflexivity.
  - vm_compute. reflexivity.
  - repeat constructor.
Defined.

(** ** [loadSource] with a URL *)

Lemma loadSource_engine_run (host : Host) (w : World) (url : jsval) :
  Hls_isSupported host = true → truthy url = true →
  HLSPlayer.loadSource host url w =
  (Ok tt,
   {| self := {| video := video (self w); hls := Some (engines w);
                 options := options (self w); listeners := listeners (self w) |};
      out := (out w ++ [HlsNew (engines w);
                        HlsLoadSource (engines w) (string_of url);
                        HlsAttachMedia (engines w);
                        HlsOn (engines w) MANIFEST_PARSED;
                        HlsOn (engines w) ERROR])%list;
      engines := S (engines w) |}).
Proof.
  intros Hs Ht. unfold HLSPlayer.loadSource, HLSPlayer.new_engine.
  rewrite Ht, Hs. cbn [negb]. run. now rewrite <- !app_assoc.
Qed.

(** X6. A second [loadSource] does not release the engine of the first:
    on a platform with the engine, [loadSource(url)] on a player that
    holds the engine [e] creates a new one, makes it [this.hls] and asks
    nothing of [e]; a [destroy()] afterwards destroys the new engine
    only. *)
Theorem loadSource_leaves_former_engine (host : Host) (w : World) (url : jsval)
        (e : nat) :
  Hls_isSupported host = true → truthy url = true →
  hls (self w) = Some e → (e < engines w)%nat →
  let w1 := snd (HLSPlayer.loadSource host url w) in
  let w2 := snd (HLSPlayer.destroy w1) in
  hls (self w1) = Some (engines w)
  ∧ out w2 =
      (out w ++ [HlsNew (engines w);
                 HlsLoadSource (engines w) (string_of url);
                 HlsAttachMedia (engines w);
                 HlsOn (engines w) MANIFEST_PARSED;
                 HlsOn (engines w) ERROR;
                 HlsDestroy (engines w)])%list
  ∧ engines w ≠ e.
Proof.
  intros Hs Ht He Hlt w1 w2. subst w2 w1.
  rewrite (loadSource_engine_run host w url Hs Ht). cbn [snd].
  rewrite destroy_run. cbn [snd self hls out].
  split; [reflexivity|]. split; [now rewrite <- app_assoc | lia].
Qed.

Lemma loadSource_leaves_former_engine_witness :
  let w1 := snd (HLSPlayer.loadSource host0 (Str "https://cdn.example/b.m3u8")
                   world_listening) in
  let w2 := snd (HLSPlayer.destroy w1) in
  hls (self w1) = Some (engines world_listening)
  ∧ out w2 =
      (out world_listening
       ++ [HlsNew (engines world_listening);
           HlsLoadSource (engines world_listening)
             (string_of (Str "https://cdn.example/b.m3u8"));
           HlsAttachMedia (engines world_listening);
           HlsOn (engines world_listening) MANIFEST_PARSED;
           HlsOn (engines world_listening) ERROR;
           HlsDestroy (engines world_listening)])%list
  ∧ engines world_listening ≠ 0%nat.
Proof.
  apply (loadSource_leaves_former_engine host0 world_listening
           (Str "https://cdn.example/b.m3u8") 0%nat).
  - reflexivity.
  - reflexivity.
  - reflexivity.
  - vm_compute. lia.
Defined.

(** X7. On a platform with neither the engine nor native support,
    [loadSource(url)] changes nothing of the player: it writes to the
    console and passes an error with the message [HLS not supported] to
    every [error] listener in subscription order. *)
Theorem loadSource_unsupported (host : Host) (w : World) (url : jsval)
        (cbs : list callback) :
  Hls_isSupported host = false → canPlayType_hls host = false →
  truthy url = true →
  listeners (self w) !! "error" = Some cbs →
  Forall (λ cb, listener_throws host cb (ErrorObject "HLS not supported") = None) cbs →
  HLSPlayer.loadSource host url w =
  (Ok tt,
   add_out (ConsoleError "HLS is not supported in this browser"
            :: map (λ cb, Call cb (ErrorObject "HLS not supported")) cbs) w).
Proof.
  intros Hs Hn Ht Hl Hq. unfold HLSPlayer.loadSource. rewrite Ht, Hs, Hn.
  cbn [negb]. run.
  rewrite (emit_own host "error" _ cbs) by assumption.
  unfold add_out. cbn. now rewrite <- app_assoc.
Qed.

Lemma loadSource_unsupported_witness :
  HLSPlayer.loadSource host_unsupported (Str "https://cdn.example/v.m3u8")
    world_listening =
  (Ok tt,
   add_out (ConsoleError "HLS is not supported in this browser"
            :: map (λ cb, Call cb (ErrorObject "HLS not supported")) [UserCb 0])
           world_listening).
Proof.
  apply (loadSource_unsupported host_unsupported world_listening
           (Str "https://cdn.example/v.m3u8") [UserCb 0]).
  - reflexivity.
  - reflexivity.
  - reflexivity.
  - vm_compute. reflexivity.
  - repeat constructor.
Defined.

(** The two ways of loading exclude each other. With the engine
    supported, [loadSource(url)] creates an engine and never assigns the
    source of the media element, whatever the element says about native
    support; without it, no engine is created, and the source is assigned
    exactly when the element can play HLS. *)
Theorem loadSource_one_path (host : Host) (w : World) (url : jsval) :
  truthy url = true →
  let w1 := snd (HLSPlayer.loadSource host url w) in
  if Hls_isSupported host then
    src (video (self w1)) = src (video (self w))
    ∧ hls (self w1) = Some (engines w) ∧ engines w1 = S (engines w)
  else
    hls (self w1) = hls (self w) ∧ engines w1 = engines w
    ∧ src (video (self w1)) =
        if canPlayType_hls host then string_of url else src (video (self w)).
Proof.
  intros Ht w1. subst w1.
  destruct (Hls_isSupported host) eqn:Hs.
  - rewrite (loadSource_engine_run host w url Hs Ht). cbn. auto.
  - unfold HLSPlayer.loadSource. rewrite Ht, Hs. cbn [negb].
    destruct (canPlayType_hls host); run.
    + cbn. auto.
    + match goal with
      | |- context [HLSPlayer.emit host ?ev ?d ?w0] =>
          destruct (emit_grows host ev d w0) as [es Hes]; rewrite Hes
      end.
      cbn. auto.
Qed.

Lemma loadSource_one_path_witness :
  let w1 := snd (HLSPlayer.loadSource host0 (Str "https://cdn.example/v.m3u8") world0) in
  if Hls_isSupported host0 then
    src (video (self w1)) = src (video (self world0))
    ∧ hls (self w1) = Some (engines world0) ∧ engines w1 = S (engines world0)
  else
    hls (self w1) = hls (self world0) ∧ engines w1 = engines world0
    ∧ src (video (self w1)) =
        if canPlayType_hls host0 then string_of (Str "https://cdn.example/v.m3u8")
        else src (video (self world0)).
Proof.
  apply (loadSource_one_path host0 world0 (Str "https://cdn.example/v.m3u8")).
  reflexivity.
Defined.

(** ** Playback methods *)

(** X8. When the element refuses to play, [play()] does not throw and
    its promise is fulfilled: the failure is written to the console and
    passed to every [error] listener in subscription order, and the player
    is left as it was. *)
Theorem play_rejection_is_reported (host : Host) (w : World) (m : string)
        (cbs : list callback) :
  video_play_rejects host = Some m →
  listeners (self w) !! "error" = Some cbs →
  Forall (λ cb, listener_throws host cb (ErrorObject m) = None) cbs →
  HLSPlayer.play host w =
  (Ok (Ok tt),
   add_out ([VideoPlay; ConsoleError "Error playing video:"]
            ++ map (λ cb, Call cb (ErrorObject m)) cbs)%list w).
Proof.
  intros Hr Hl Hq. unfold HLSPlayer.play. rewrite Hr. run.
  rewrite (emit_own host "error" _ cbs) by assumption.
  unfold add_out. cbn. now rewrite <- !app_assoc.
Qed.

Lemma play_rejection_is_reported_witness :
  HLSPlayer.play host_rejecting world_listening =
  (Ok (Ok tt),
   add_out ([VideoPlay; ConsoleError "Error playing video:"]
            ++ map (λ cb, Call cb (ErrorObject "NotAllowedError")) [UserCb 0])%list
           world_listening).
Proof.
  apply (play_rejection_is_reported host_rejecting world_listening
           "NotAllowedError" [UserCb 0]).
  - reflexivity.
  - vm_compute. reflexivity.
  - repeat constructor.
Defined.

(** [toggleMute()] returns the new state of [muted], the negation of
    the former one, and two calls leave the player as it was. *)
Theorem toggleMute_twice (w : World) :
  fst (HLSPlayer.toggleMute w) = Ok (negb (muted (video (self w))))
  ∧ muted (video (self (snd (HLSPlayer.toggleMute w)))) = negb (muted (video (self w)))
  ∧ snd (HLSPlayer.toggleMute (snd (HLSPlayer.toggleMute w))) = w.
Proof.
  destruct w as [[[s a m c l vo ct du pa po ha] h o ls] ou en].
  unfold HLSPlayer.toggleMute. run. cbn. rewrite negb_involutive. auto.
Qed.

(** Whatever number other than [NaN] is given, also an infinity,
    [setVolume] leaves a volume between 0 and 1, and setting the volume
    that is there again changes nothing. *)
Theorem setVolume_within_range (w : World) (v : number) :
  v ≠ NaN →
  let w1 := snd (HLSPlayer.setVolume v w) in
  ∃ q : Qc, volume (video (self w1)) = Fin q ∧ (0 ≤ q)%Qc ∧ (q ≤ 1)%Qc
            ∧ HLSPlayer.setVolume (Fin q) w1 = (Ok tt, w1).
Proof.
  intros Hv w1. subst w1. rewrite setVolume_run. cbn [snd self video].
  assert (Hc : ∃ q : Qc, Num.max (Num.of_Z 0) (Num.min (Num.of_Z 1) v) = Fin q
                          ∧ (0 ≤ q)%Qc ∧ (q ≤ 1)%Qc).
  { destruct v as [| | | q]; [contradiction | | |].
    - exists 1%Qc. split; [|split; discriminate].
      unfold Num.max, Num.min, Num.of_Z. cbn [Num.isNaN orb Num.lt].
      rewrite Qc_of_Z_0, Qc_of_Z_1. cbn [Num.isNaN orb Num.lt].
      now rewrite bool_decide_eq_true_2 by reflexivity.
    - exists 0%Qc. split; [|split; discriminate].
      unfold Num.max, Num.min, Num.of_Z. cbn [Num.isNaN orb Num.lt].
      now rewrite Qc_of_Z_0.
    - rewrite clamp_fin. eexists. split; [reflexivity|].
      destruct (bool_decide_reflect (q < 0)%Qc) as [H0|H0]; [split; discriminate|].
      destruct (bool_decide_reflect (1 < q)%Qc) as [H1|H1]; [split; discriminate|].
      split; [now apply Qcnot_lt_le | now apply Qcnot_lt_le]. }
  destruct Hc as (q & Hq & H0 & H1). exists q.
  rewrite Hq. cbn [HLSPlayer.with_volume volume]. repeat split; try assumption.
  rewrite setVolume_run. cbn [self video hls options listeners out engines].
  rewrite clamp_fin.
  rewrite bool_decide_eq_false_2 by (now apply Qcle_not_lt).
  rewrite bool_decide_eq_false_2 by (now apply Qcle_not_lt).
  reflexivity.
Qed.

Lemma setVolume_within_range_witness :
  let w1 := snd (HLSPlayer.setVolume PosInf world0) in
  ∃ q : Qc, volume (video (self w1)) = Fin q ∧ (0 ≤ q)%Qc ∧ (q ≤ 1)%Qc
            ∧ HLSPlayer.setVolume (Fin q) w1 = (Ok tt, w1).
Proof. apply (setVolume_within_range world0 PosInf). discriminate. Defined.

(** ** Events of the media element *)

Lemma try_catch_returns {S A} (m : M S A) (h : exn → M S A) (s s1 : S) (a : A) :
  m s = (Ok a, s1) → try_catch m h s = (Ok a, s1).
Proof. intros H. unfold try_catch. now rewrite H. Qed.

Lemma listener_other (host : Host) (event name : string) (w : World) :
  String.eqb event name = false →
  try_catch (Adapter.listener host name (Forward event)) (λ _, ret tt) w = (Ok tt, w).
Proof. intros H. unfold Adapter.listener, try_catch. now rewrite H. Qed.

Lemma listener_forward (host : Host) (name : string) (cbs : list callback) (w : World) :
  listeners (self w) !! name = Some cbs →
  Forall (λ cb, listener_throws host cb (NativeEvent name) = None) cbs →
  try_catch (Adapter.listener host name (Forward name)) (λ _, ret tt) w =
  (Ok tt, add_out (map (λ cb, Call cb (NativeEvent name)) cbs) w).
Proof.
  intros Hl Hq. apply try_catch_returns. unfold Adapter.listener.
  rewrite String.eqb_refl. now apply emit_own.
Qed.

(** The forwarding closures of the constructor, called for the event
    [name] of the element: that of [name] passes the event on and the
    five others do nothing. *)
Lemma forEach_forward (host : Host) (w : World) (name : string)
      (cbs : list callback) :
  name ∈ Registry.predefined_keys →
  listeners (self w) !! name = Some cbs →
  Forall (λ cb, listener_throws host cb (NativeEvent name) = None) cbs →
  forEach (λ h, try_catch (Adapter.listener host name h) (λ _, ret tt))
          (map Forward Registry.predefined_keys) w =
  (Ok tt, add_out (map (λ cb, Call cb (NativeEvent name)) cbs) w).
Proof.
  intros Hn Hl Hq.
  unfold Registry.predefined_keys in *. cbn [map].
  rewrite !elem_of_cons, elem_of_nil in Hn.
  destruct Hn as [-> | [-> | [-> | [-> | [-> | [-> | []]]]]]];
    repeat (rewrite forEach_cons;
            first [ rewrite (listener_forward host _ cbs) by assumption
                  | rewrite listener_other by reflexivity ]);
    reflexivity.
Qed.

(** X9. The six events of the media element are forwarded: on a player
    as constructed, when the element dispatches one of [play], [pause],
    [ended], [timeupdate], [loadedmetadata] and [error], the listeners
    registered for that name, and no others, are called in subscription
    order with the event. *)
Theorem native_event_is_forwarded (host : Host) (w : World) (name : string)
        (cbs : list callback) :
  handlers (video (self w)) = map Forward Registry.predefined_keys →
  name ∈ Registry.predefined_keys →
  listeners (self w) !! name = Some cbs →
  Forall (λ cb, listener_throws host cb (NativeEvent name) = None) cbs →
  Adapter.dispatchEvent host name w =
  (Ok tt, add_out (map (λ cb, Call cb (NativeEvent name)) cbs) w).
Proof.
  intros Hh Hn Hl Hq. unfold Adapter.dispatchEvent.
  rewrite (bind_returns get _ w w w eq_refl), Hh.
  now apply forEach_forward.
Qed.

Lemma native_event_is_forwarded_witness :
  Adapter.dispatchEvent host0 "error" world_listening =
  (Ok tt, add_out (map (λ cb, Call cb (NativeEvent "error")) [UserCb 0])
                  world_listening).
Proof.
  apply (native_event_is_forwarded host0 world_listening "error" [UserCb 0]).
  - reflexivity.
  - unfold Registry.predefined_keys. rewrite !elem_of_cons. tauto.
  - vm_compute. reflexivity.
  - repeat constructor.
Defined.

(** A computation of the adapter that keeps an empty registry empty and
    calls no listener meanwhile. *)
Lemma silent_emit (host : Host) (event : string) (data : payload) (w : World) :
  listeners (self w) = ∅ →
  snd (HLSPlayer.emit host event data w) = w.
Proof.
  intros Hl. unfold HLSPlayer.emit. run. rewrite Hl, lookup_empty_registry.
  destruct (bool_decide _); reflexivity.
Qed.

Lemma silent_play (host : Host) (w : World) :
  listeners (self w) = ∅ →
  ∃ w1, HLSPlayer.play host w = (Ok (Ok tt), w1)
        ∧ listeners (self w1) = ∅
        ∧ handlers (video (self w1)) = handlers (video (self w))
        ∧ filter is_call (out w1) = filter is_call (out w).
Proof.
  intros Hl. unfold HLSPlayer.play. run.
  destruct (video_play_rejects host) as [m|]; run.
  - rewrite destroyed_emit_error by exact Hl. eexists. split; [reflexivity|].
    cbn [self listeners video out]. rewrite !filter_app. cbn.
    rewrite !app_nil_r. auto.
  - eexists. split; [reflexivity|].
    cbn [self listeners video out HLSPlayer.with_paused handlers].
    rewrite !filter_app. cbn. rewrite !app_nil_r. auto.
Qed.

Lemma silent_listener (host : Host) (name : string) (h : native_handler) (w : World) :
  listeners (self w) = ∅ →
  ∃ w1, try_catch (Adapter.listener host name h) (λ _, ret tt) w = (Ok tt, w1)
        ∧ listeners (self w1) = ∅
        ∧ handlers (video (self w1)) = handlers (video (self w))
        ∧ filter is_call (out w1) = filter is_call (out w).
Proof.
  intros Hl. destruct h as [event | |]; unfold Adapter.listener.
  - destruct (String.eqb event name); [|exists w; auto].
    pose proof (silent_emit host event (NativeEvent name) w Hl) as Hs.
    unfold try_catch. destruct (HLSPlayer.emit _ _ _ _) as [[[]|e] w1];
      cbn [snd] in Hs; subst w1; exists w; auto.
  - destruct (String.eqb name "loadedmetadata"); [|exists w; auto].
    run. destruct (opt_autoplay (options (self w))); run.
    + match goal with
      | |- context [HLSPlayer.play host ?w0] =>
          destruct (silent_play host w0 Hl) as (w1 & Hp & Hl1 & Hh1 & Hc1)
      end.
      rewrite Hp. exists w1. cbn [out self video] in *.
      rewrite filter_app in Hc1. cbn in Hc1. rewrite app_nil_r in Hc1. auto.
    + eexists. split; [reflexivity|]. cbn [self listeners video out].
      rewrite filter_app. cbn. rewrite app_nil_r. auto.
  - destruct (String.eqb name "click"); [|exists w; auto].
    unfold HLSPlayer.togglePlay, HLSPlayer.pause. run.
    destruct (paused (video (self w))); run.
    + destruct (silent_play host w Hl) as (w1 & Hp & Hl1 & Hh1 & Hc1).
      rewrite Hp. exists w1. auto.
    + eexists. split; [reflexivity|].
      cbn [self listeners video out HLSPlayer.with_paused handlers].
      rewrite filter_app. cbn. rewrite app_nil_r. auto.
Qed.

Lemma silent_dispatch (host : Host) (name : string) (hs : list native_handler)
      (w : World) :
  listeners (self w) = ∅ →
  ∃ w1, forEach (λ h, try_catch (Adapter.listener host name h) (λ _, ret tt)) hs w
        = (Ok tt, w1)
        ∧ listeners (self w1) = ∅
        ∧ filter is_call (out w1) = filter is_call (out w).
Proof.
  revert w. induction hs as [| h hs IH]; intros w Hl.
  - exists w. auto.
  - rewrite forEach_cons.
    destruct (silent_listener host name h w Hl) as (w1 & Hr & Hl1 & _ & Hc1).
    rewrite Hr. destruct (IH w1 Hl1) as (w2 & Hr2 & Hl2 & Hc2).
    exists w2. rewrite Hr2. repeat split; [exact Hl2 | congruence].
Qed.

(** X10. [destroy()] detaches nothing from the media element, but the
    functions it leaves there reach nobody: after [destroy()], whatever
    event the element dispatches, the dispatch returns and no listener is
    called. *)
Theorem destroyed_player_is_silent (host : Host) (w : World) (name : string) :
  let w1 := snd (HLSPlayer.destroy w) in
  handlers (video (self w1)) = handlers (video (self w))
  ∧ fst (Adapter.dispatchEvent host name w1) = Ok tt
  ∧ filter is_call (out (snd (Adapter.dispatchEvent host name w1))) =
      filter is_call (out w).
Proof.
  intros w1. subst w1. rewrite destroy_run. cbn [snd].
  split; [reflexivity|].
  unfold Adapter.dispatchEvent.
  match goal with
  | |- context [(get ≫= ?k) ?w0] =>
      rewrite !(bind_returns get k w0 w0 w0 eq_refl)
  end.
  match goal with
  | |- context [forEach ?f ?hs ?w0] =>
      destruct (silent_dispatch host name hs w0 eq_refl) as (w2 & Hr & _ & Hc)
  end.
  rewrite Hr. cbn [fst snd]. split; [reflexivity|].
  rewrite Hc. cbn [out]. rewrite filter_app.
  destruct (hls (self w)); cbn; now rewrite app_nil_r.
Qed.

(** ** What [extractVideoId] returns *)

Lemma first_match_digits (ps : list string) (s d : string) :
  VimeoAPI.first_match ps s = Some d → digit_group d.
Proof.
  induction ps as [| p ps IH]; intros H; [discriminate H|].
  cbn [VimeoAPI.first_match] in H.
  destruct (VimeoAPI.regex_match p s) as [d'|] eqn:Hm; [|now apply IH].
  inversion H; subst d'. apply regex_match_Some in Hm.
  destruct Hm as (_ & _ & _ & Hd & _). exact Hd.
Qed.

Lemma extract_digits (s d : string) :
  VimeoAPI.extractVideoId s = Some d → digit_group d.
Proof.
  unfold VimeoAPI.extractVideoId. intros H.
  destruct (VimeoAPI.first_match VimeoAPI.patterns s) as [d'|] eqn:Hm.
  - inversion H; subst d'. exact (first_match_digits _ _ _ Hm).
  - destruct (VimeoAPI.numeric s) eqn:Hn; [|discriminate H].
    inversion H; subst d. now apply numeric_iff.
Qed.

(** X11. What [extractVideoId] returns, when it is not [null], is a
    non-empty run of decimal digits, and [extractVideoId] returns it
    unchanged when given it again. *)
Theorem extractVideoId_gives_identifier (s d : string) :
  VimeoAPI.extractVideoId s = Some d →
  digit_group d ∧ VimeoAPI.extractVideoId d = Some d.
Proof.
  intros H. pose proof (extract_digits s d H) as Hd.
  split; [exact Hd | now apply extract_numeric].
Qed.

Lemma extractVideoId_gives_identifier_witness :
  digit_group "76979871" ∧ VimeoAPI.extractVideoId "76979871" = Some "76979871".
Proof.
  apply (extractVideoId_gives_identifier "https://vimeo.com/76979871?share=copy").
  reflexivity.
Defined.

Lemma player_shape_is_video_shape (s : string) :
  has_shape "player.vimeo.com/video/" s → has_shape "vimeo.com/video/" s.
Proof.
  intros (pre & d & post & -> & Hd).
  exists (pre +:+ "player."), d, post. split; [|exact Hd].
  now rewrite append_assoc.
Qed.

(** X12. The third pattern never decides: whenever
    [/player\.vimeo\.com\/video\/(\d+)/] matches, the second pattern
    matches as well and the loop has returned before; the loop gives the
    same with the first two patterns alone. *)
Theorem third_pattern_never_decides (url : string) :
  VimeoAPI.first_match VimeoAPI.patterns url =
  VimeoAPI.first_match ["vimeo.com/"; "vimeo.com/video/"] url.
Proof.
  unfold VimeoAPI.patterns. cbn [VimeoAPI.first_match].
  destruct (VimeoAPI.regex_match "vimeo.com/" url); [reflexivity|].
  destruct (VimeoAPI.regex_match "vimeo.com/video/" url) eqn:H2; [reflexivity|].
  rewrite regex_match_None; [reflexivity|].
  intros H3. apply player_shape_is_video_shape in H3.
  apply no_shape_iff in H2. contradiction.
Qed.

(** ** [formatTime] and fractions of a second *)

Lemma formatTime_of_parts (frac : Qc → string) (t : Qc) :
  (0 ≤ t)%Qc →
  let T := Qfloor t in
  VideoControls.formatTime frac (Fin t) =
  if 0 <? T / 3600 then
    Num.toString frac (Num.of_Z (T / 3600)) +:+ ":" +:+
    Str.padStart 2 "0" (Num.toString frac (Num.of_Z (T mod 3600 / 60))) +:+ ":" +:+
    Str.padStart 2 "0" (Num.toString frac (Num.of_Z (T mod 60)))
  else
    Num.toString frac (Num.of_Z (T mod 3600 / 60)) +:+ ":" +:+
    Str.padStart 2 "0" (Num.toString frac (Num.of_Z (T mod 60))).
Proof.
  intros Ht T. destruct (formatTime_parts t Ht) as (Hh & Hm & Hs).
  fold T in Hh, Hm, Hs. unfold VideoControls.formatTime. cbn [Num.isNaN].
  now rewrite Hh, Hm, Hs, gt_of_Z.
Qed.

(** X13. [formatTime] shows whole seconds: for a time that is not
    negative, the result is that of the time rounded down to a whole
    number of seconds. *)
Theorem formatTime_drops_fraction (frac : Qc → string) (t : Qc) :
  (0 ≤ t)%Qc →
  VideoControls.formatTime frac (Fin t) =
  VideoControls.formatTime frac (Num.of_Z (Qfloor t)).
Proof.
  intros Ht. unfold Num.of_Z.
  assert (HT : (0 ≤ Qc_of_Z (Qfloor t))%Qc).
  { rewrite <- Z2Qc_inj_0. apply (proj1 (Z2Qc_inj_le 0 (Qfloor t))).
    now apply Qfloor_nonneg. }
  rewrite (formatTime_of_parts frac t Ht).
  rewrite (formatTime_of_parts frac (Qc_of_Z (Qfloor t)) HT).
  cbv zeta.
  replace (Qfloor (Qc_of_Z (Qfloor t))) with (Qfloor t); [reflexivity|].
  symmetry. apply Qfloor_Z.
Qed.

Lemma formatTime_drops_fraction_witness :
  VideoControls.formatTime (frac_toString host0) (Fin (qz 7325 2)) =
  VideoControls.formatTime (frac_toString host0) (Num.of_Z (Qfloor (qz 7325 2))).
Proof.
  apply (formatTime_drops_fraction (frac_toString host0) (qz 7325 2)).
  intros H. vm_compute in H. discriminate H.
Defined.

(** ** [loadHLS] *)

Lemma loadHLS_engine_run (host : Host) (url : jsval) (p : Page) (pl : HLSPlayer)
      (cbs : list callback) :
  Hls_isSupported host = true → truthy url = true →
  player p = Some pl →
  listeners pl !! "loadedmetadata" = Some cbs →
  VimeoHLSPlayer.loadHLS host url p =
  (Ok (Ok tt),
   {| container := VimeoHLSPlayer.classList_add "loading" (container p);
      settings := settings p;
      player := Some {| video := video pl; hls := Some (made p);
                        options := options pl;
                        listeners := <["loadedmetadata" := (cbs ++ [RemoveLoading])%list]>
                                       (listeners pl) |};
      overlay := overlay p; videoElement := videoElement p;
      log := (log p ++ [HlsNew (made p);
                        HlsLoadSource (made p) (string_of url);
                        HlsAttachMedia (made p);
                        HlsOn (made p) MANIFEST_PARSED;
                        HlsOn (made p) ERROR])%list;
      made := S (made p) |}).
Proof.
  intros Hs Ht Hp Hl. destruct p as [k o pl' ov ve l m]. cbn in Hp. subst pl'.
  unfold VimeoHLSPlayer.loadHLS. runp.
  rewrite (on_player_run _ _ pl) by reflexivity.
  rewrite (loadSource_engine_run host _ url Hs Ht). runp.
  match goal with
  | |- context [VimeoHLSPlayer.on_player ?c ?q] =>
      rewrite (on_player_run c q _ eq_refl)
  end.
  runp. rewrite (on_run _ _ cbs) by exact Hl. reflexivity.
Qed.

Lemma forEach_app_returns {S A} (f : A → M S unit) (l1 l2 : list A) (s s1 : S) :
  forEach f l1 s = (Ok tt, s1) → forEach f (l1 ++ l2) s = forEach f l2 s1.
Proof.
  revert s. induction l1 as [| a l1 IH]; intros s H.
  - cbn in H. inversion H. reflexivity.
  - cbn [app]. rewrite forEach_cons in *.
    destruct (f a s) as [[[]|e] s']; [now apply IH | discriminate H].
Qed.

(** The [click] closures of the overlay do nothing for another event. *)
Lemma forEach_clicks (host : Host) (name : string) (n : nat) (w : World) :
  String.eqb name "click" = false →
  forEach (λ h, try_catch (Adapter.listener host name h) (λ _, ret tt))
          (replicate n ToggleOnClick) w = (Ok tt, w).
Proof.
  intros Hn. induction n as [| n IH]; [reflexivity|].
  cbn [replicate]. rewrite forEach_cons. unfold Adapter.listener at 1, try_catch at 1.
  rewrite Hn. exact IH.
Qed.

(** X14. On a platform with the engine, [loadHLS(url)] marks the
    container as loading, shows no error panel and subscribes the removal
    of the mark to [loadedmetadata] after the listeners that are there:
    when the element then dispatches [loadedmetadata], these are called in
    their order and the removal last. *)
Theorem loadHLS_then_metadata (host : Host) (url : jsval) (p : Page) (pl : HLSPlayer)
        (cbs : list callback) (clicks : nat) :
  Hls_isSupported host = true → truthy url = true →
  player p = Some pl →
  handlers (video pl) =
    (map Forward Registry.predefined_keys ++ replicate clicks ToggleOnClick)%list →
  listeners pl !! "loadedmetadata" = Some cbs →
  Forall (λ cb, listener_throws host cb (NativeEvent "loadedmetadata") = None)
         (cbs ++ [RemoveLoading]) →
  let p1 := snd (VimeoHLSPlayer.loadHLS host url p) in
  let p2 := snd (VimeoHLSPlayer.on_player
                   (Adapter.dispatchEvent host "loadedmetadata") p1) in
  "loading" ∈ classList (container p1)
  ∧ children (container p1) = children (container p)
  ∧ log p2 =
      (log p1 ++ map (λ cb, Call cb (NativeEvent "loadedmetadata"))
                     (cbs ++ [RemoveLoading]))%list.
Proof.
  intros Hs Ht Hp Hh Hl Hq p1 p2. subst p2 p1.
  rewrite (loadHLS_engine_run host url p pl cbs Hs Ht Hp Hl). cbn [snd].
  split; [|split].
  - unfold VimeoHLSPlayer.classList_add. cbn [container classList].
    case_bool_decide; [assumption|]. rewrite elem_of_app, elem_of_cons.
    right. now left.
  - reflexivity.
  - match goal with
    | |- context [VimeoHLSPlayer.on_player ?c ?q] =>
        rewrite (on_player_run c q _ eq_refl)
    end.
    cbn [snd log]. unfold Adapter.dispatchEvent.
    match goal with
    | |- context [(get ≫= ?k) ?w0] =>
        rewrite (bind_returns get k w0 w0 w0 eq_refl)
    end.
    cbn [self video]. rewrite Hh.
    erewrite forEach_app_returns;
      [|apply (forEach_forward host _ "loadedmetadata" (cbs ++ [RemoveLoading]))].
    + now rewrite forEach_clicks by reflexivity.
    + unfold Registry.predefined_keys. rewrite !elem_of_cons. tauto.
    + cbn [self listeners]. apply lookup_insert_eq.
    + exact Hq.
Qed.

Lemma loadHLS_then_metadata_witness :
  let p1 := snd (VimeoHLSPlayer.loadHLS host0 (Str "https://cdn.example/v.m3u8") page0) in
  let p2 := snd (VimeoHLSPlayer.on_player
                   (Adapter.dispatchEvent host0 "loadedmetadata") p1) in
  "loading" ∈ classList (container p1)
  ∧ children (container p1) = children (container page0)
  ∧ log p2 =
      (log p1 ++ map (λ cb, Call cb (NativeEvent "loadedmetadata"))
                     ([UpdateDuration] ++ [RemoveLoading]))%list.
Proof.
  apply (loadHLS_then_metadata host0 (Str "https://cdn.example/v.m3u8") page0
           adapter0 [UpdateDuration] 1).
  - reflexivity.
  - reflexivity.
  - vm_compute. reflexivity.
  - vm_compute. reflexivity.
  - vm_compute. reflexivity.
  - repeat constructor.
Defined.

(** X15. [loadHLS] with a URL that is [null], [undefined] or empty loads
    nothing and shows no error panel, but still marks the container as
    loading: [loadSource] only writes to the console and returns, so the
    [catch] is not entered and the mark stays until a [loadedmetadata]
    that no load will bring. *)
Theorem loadHLS_without_url (host : Host) (url : jsval) (p : Page) (pl : HLSPlayer) :
  truthy url = false →
  player p = Some pl →
  Registry.lookup (listeners pl) "loadedmetadata" ≠ Registry.Inherited →
  let p1 := snd (VimeoHLSPlayer.loadHLS host url p) in
  fst (VimeoHLSPlayer.loadHLS host url p) = Ok (Ok tt)
  ∧ "loading" ∈ classList (container p1)
  ∧ children (container p1) = children (container p)
  ∧ log p1 = (log p ++ [ConsoleError "No HLS URL provided"])%list
  ∧ made p1 = made p.
Proof.
  intros Ht Hp Hl p1. subst p1.
  destruct p as [k o pl' ov ve l m]. cbn in Hp. subst pl'.
  unfold VimeoHLSPlayer.loadHLS. runp.
  rewrite (on_player_run _ _ pl) by reflexivity.
  unfold HLSPlayer.loadSource. rewrite Ht. cbn [negb]. run. runp.
  match goal with
  | |- context [VimeoHLSPlayer.on_player ?c ?q] =>
      rewrite (on_player_run c q _ eq_refl)
  end.
  runp. unfold HLSPlayer.on. run.
  assert (Hin : "loading" ∈ classList (VimeoHLSPlayer.classList_add "loading" k)).
  { unfold VimeoHLSPlayer.classList_add. cbn [classList].
    case_bool_decide; [assumption|]. rewrite elem_of_app, elem_of_cons.
    right. now left. }
  destruct (Registry.lookup (listeners pl) "loadedmetadata");
    [| |contradiction]; run; runp; auto.
Qed.

Lemma loadHLS_without_url_witness :
  let p1 := snd (VimeoHLSPlayer.loadHLS host0 (Str "") page0) in
  fst (VimeoHLSPlayer.loadHLS host0 (Str "") page0) = Ok (Ok tt)
  ∧ "loading" ∈ classList (container p1)
  ∧ children (container p1) = children (container page0)
  ∧ log p1 = (log page0 ++ [ConsoleError "No HLS URL provided"])%list
  ∧ made p1 = made page0.
Proof.
  apply (loadHLS_without_url host0 (Str "") page0 adapter0).
  - reflexivity.
  - vm_compute. reflexivity.
  - vm_compute. discriminate.
Defined.

(** ** [loadVimeo], whatever the network answers *)

Ltac settled :=
  cbn [truthy]; runp; split; [reflexivity|];
  unfold VimeoHLSPlayer.classList_remove, VimeoHLSPlayer.appendChild;
  cbn [classList container]; rewrite list_elem_of_filter; tauto.

(** X16. [loadVimeo] settles every failure itself: whatever the input,
    the token, the state of the facade and the answers of the network and
    the platform, the promise it returns is fulfilled, and the container
    is not marked as loading afterwards. *)
Theorem loadVimeo_settles (host : Host) (p : Page) (vimeoId : string) (token : jsval) :
  fst (VimeoHLSPlayer.loadVimeo host vimeoId token p) = Ok (Ok tt)
  ∧ "loading" ∉ classList (container (snd (VimeoHLSPlayer.loadVimeo host vimeoId token p))).
Proof.
  unfold VimeoHLSPlayer.loadVimeo.
  set (videoId := VimeoHLSPlayer.or_else (VimeoAPI.extractVideoId vimeoId) vimeoId).
  unfold VimeoAPI.getHLSFromPlayer, VimeoAPI.getVideoData. runp.
  destruct (player_page host _) as [[|c r]|m]; runp.
  - destruct (truthy token); runp; [|settled].
    destruct (api_video host _ _) as [[link|]|m']; runp; try settled.
    destruct (truthy (Str link)); runp; [|settled].
    use_loadHLS host. settled.
  - use_loadHLS host. settled.
  - destruct (truthy token); runp; [|settled].
    destruct (api_video host _ _) as [[link|]|m']; runp; try settled.
    destruct (truthy (Str link)); runp; [|settled].
    use_loadHLS host. settled.
Qed.

Lemma loadVimeo_first_fetch (host : Host) (p : Page) (s : string) (token : jsval) :
  ∃ es, log (snd (VimeoHLSPlayer.loadVimeo host s token p)) =
        (log p ++ Fetch ("https://player.vimeo.com/video/"
                         +:+ VimeoHLSPlayer.or_else (VimeoAPI.extractVideoId s) s) None
               :: es)%list.
Proof.
  unfold VimeoHLSPlayer.loadVimeo.
  set (videoId := VimeoHLSPlayer.or_else (VimeoAPI.extractVideoId s) s).
  unfold VimeoAPI.getHLSFromPlayer, VimeoAPI.getVideoData. runp.
  destruct (player_page host _) as [[|c r]|m]; runp.
  - destruct (truthy token); runp; [|eexists; rewrite <- !app_assoc; reflexivity].
    destruct (api_video host _ _) as [[link|]|m']; runp;
      try (eexists; rewrite <- !app_assoc; reflexivity).
    destruct (truthy (Str link)); runp;
      [|eexists; rewrite <- !app_assoc; reflexivity].
    use_loadHLS host. eexists. rewrite <- !app_assoc. reflexivity.
  - use_loadHLS host. eexists. rewrite <- !app_assoc. reflexivity.
  - destruct (truthy token); runp; [|eexists; rewrite <- !app_assoc; reflexivity].
    destruct (api_video host _ _) as [[link|]|m']; runp;
      try (eexists; rewrite <- !app_assoc; reflexivity).
    destruct (truthy (Str link)); runp;
      [|eexists; rewrite <- !app_assoc; reflexivity].
    use_loadHLS host. eexists. rewrite <- !app_assoc. reflexivity.
Qed.

(** X17. When [extractVideoId] finds an identifier in the input, the
    first call [loadVimeo] makes is the fetch of the player page of that
    identifier, not of the input. *)
Theorem loadVimeo_fetches_extracted_id (host : Host) (p : Page) (s d : string)
        (token : jsval) :
  VimeoAPI.extractVideoId s = Some d →
  ∃ es, log (snd (VimeoHLSPlayer.loadVimeo host s token p)) =
        (log p ++ Fetch ("https://player.vimeo.com/video/" +:+ d) None :: es)%list.
Proof.
  intros Hx. destruct (loadVimeo_first_fetch host p s token) as [es Hes].
  exists es. rewrite Hes, Hx.
  destruct (extract_digits s d Hx) as [Hne _].
  destruct d; [contradiction|reflexivity].
Qed.

Lemma loadVimeo_fetches_extracted_id_witness :
  ∃ es, log (snd (VimeoHLSPlayer.loadVimeo host0 "https://vimeo.com/76979871" Null page0)) =
        (log page0 ++ Fetch ("https://player.vimeo.com/video/" +:+ "76979871") None
                   :: es)%list.
Proof.
  apply (loadVimeo_fetches_extracted_id host0 page0 "https://vimeo.com/76979871"
           "76979871" Null).
  reflexivity.
Defined.

(** ** [loadVimeo] when a source is found *)

Lemma getHLSFromPlayer_succeeds (host : Host) (videoId u : string) :
  snd (VimeoAPI.getHLSFromPlayer host videoId) = Ok u →
  fst (VimeoAPI.getHLSFromPlayer host videoId) =
    [Fetch ("https://player.vimeo.com/video/" +:+ videoId) None]
  ∧ truthy (Str u) = true.
Proof.
  unfold VimeoAPI.getHLSFromPlayer.
  destruct (player_page host _) as [[|c r]|m]; cbn [fst snd];
    intros H; inversion H; split; reflexivity.
Qed.

Lemma loading_removed (k : Container) :
  "loading" ∉ classList (VimeoHLSPlayer.classList_remove "loading" k).
Proof.
  unfold VimeoHLSPlayer.classList_remove. cbn [classList].
  rewrite list_elem_of_filter. tauto.
Qed.

(** X18. When the player page gives the URL, [loadVimeo] does not go to
    the API, with a token or without: on a platform with the engine it
    makes the one fetch of the player page, hands the URL to a new engine,
    shows no error panel, and the container is not marked as loading when
    it returns. *)
Theorem loadVimeo_from_player_page (host : Host) (p : Page) (pl : HLSPlayer)
        (cbs : list callback) (vimeoId u : string) (token : jsval) :
  let videoId := VimeoHLSPlayer.or_else (VimeoAPI.extractVideoId vimeoId) vimeoId in
  snd (VimeoAPI.getHLSFromPlayer host videoId) = Ok u →
  Hls_isSupported host = true →
  player p = Some pl →
  listeners pl !! "loadedmetadata" = Some cbs →
  let p1 := snd (VimeoHLSPlayer.loadVimeo host vimeoId token p) in
  log p1 =
    (log p ++ [Fetch ("https://player.vimeo.com/video/" +:+ videoId) None;
               HlsNew (made p);
               HlsLoadSource (made p) u;
               HlsAttachMedia (made p);
               HlsOn (made p) MANIFEST_PARSED;
               HlsOn (made p) ERROR])%list
  ∧ children (container p1) = children (container p)
  ∧ "loading" ∉ classList (container p1).
Proof.
  intros videoId Hu Hs Hp Hl p1. subst p1.
  destruct (getHLSFromPlayer_succeeds host videoId u Hu) as [Hf Ht].
  unfold VimeoHLSPlayer.loadVimeo. fold videoId. runp. rewrite Hu, Hf. runp.
  match goal with
  | |- context [VimeoHLSPlayer.loadHLS host ?u0 ?q] =>
      rewrite (loadHLS_engine_run host u0 q pl cbs Hs Ht Hp Hl)
  end.
  runp.
  split; [now rewrite <- app_assoc|]. split; [reflexivity|].
  apply loading_removed.
Qed.

Lemma loadVimeo_from_player_page_witness :
  let p1 := snd (VimeoHLSPlayer.loadVimeo host_public "76979871" (Str "t0k") page0) in
  log p1 =
    (log page0 ++ [Fetch ("https://player.vimeo.com/video/" +:+ "76979871") None;
                   HlsNew (made page0);
                   HlsLoadSource (made page0) "https://cdn.example/master.m3u8";
                   HlsAttachMedia (made page0);
                   HlsOn (made page0) MANIFEST_PARSED;
                   HlsOn (made page0) ERROR])%list
  ∧ children (container p1) = children (container page0)
  ∧ "loading" ∉ classList (container p1).
Proof.
  apply (loadVimeo_from_player_page host_public page0 adapter0 [UpdateDuration]
           "76979871" "https://cdn.example/master.m3u8" (Str "t0k")).
  - reflexivity.
  - reflexivity.
  - vm_compute. reflexivity.
  - vm_compute. reflexivity.
Defined.

(** X19. The authenticated fallback: when the player page fails, a token
    is given and the API names an HLS file, [loadVimeo] fetches the video
    from the API with the token as bearer and, on a platform with the
    engine, hands the link of that file to a new engine; no error panel is
    shown and the container is not marked as loading when it returns. *)
Theorem loadVimeo_with_token (host : Host) (p : Page) (pl : HLSPlayer)
        (cbs : list callback) (vimeoId link : string) (token : jsval) (e : exn) :
  let videoId := VimeoHLSPlayer.or_else (VimeoAPI.extractVideoId vimeoId) vimeoId in
  snd (VimeoAPI.getHLSFromPlayer host videoId) = Throw e →
  truthy token = true →
  api_video host ("https://api.vimeo.com/videos/" +:+ videoId) (string_of token)
    = inl (Some link) →
  link ≠ "" →
  Hls_isSupported host = true →
  player p = Some pl →
  listeners pl !! "loadedmetadata" = Some cbs →
  let p1 := snd (VimeoHLSPlayer.loadVimeo host vimeoId token p) in
  log p1 =
    (log p ++ [Fetch ("https://player.vimeo.com/video/" +:+ videoId) None;
               ConsoleError "Error getting HLS from player:";
               ConsoleLog "Could not get HLS from player, trying API...";
               Fetch ("https://api.vimeo.com/videos/" +:+ videoId)
                     (Some ("Bearer " +:+ string_of token));
               HlsNew (made p);
               HlsLoadSource (made p) link;
               HlsAttachMedia (made p);
               HlsOn (made p) MANIFEST_PARSED;
               HlsOn (made p) ERROR])%list
  ∧ children (container p1) = children (container p)
  ∧ "loading" ∉ classList (container p1).
Proof.
  intros videoId Hfail Htok Hapi Hne Hs Hp Hl p1. subst p1.
  pose proof (getHLSFromPlayer_fails host videoId e Hfail) as Hfx.
  assert (Ht : truthy (Str link) = true) by (destruct link; [contradiction|reflexivity]).
  unfold VimeoHLSPlayer.loadVimeo. fold videoId. runp.
  rewrite Hfail, Hfx. runp. rewrite Htok.
  unfold VimeoAPI.getVideoData. rewrite Hapi, Htok. runp. rewrite Ht.
  match goal with
  | |- context [VimeoHLSPlayer.loadHLS host ?u0 ?q] =>
      rewrite (loadHLS_engine_run host u0 q pl cbs Hs Ht Hp Hl)
  end.
  runp.
  split; [now rewrite <- !app_assoc|]. split; [reflexivity|].
  apply loading_removed.
Qed.

Lemma loadVimeo_with_token_witness :
  let p1 := snd (VimeoHLSPlayer.loadVimeo host_private "76979871" (Str "t0k") page0) in
  log p1 =
    (log page0 ++ [Fetch ("https://player.vimeo.com/video/" +:+ "76979871") None;
                   ConsoleError "Error getting HLS from player:";
                   ConsoleLog "Could not get HLS from player, trying API...";
                   Fetch ("https://api.vimeo.com/videos/" +:+ "76979871")
                         (Some ("Bearer " +:+ string_of (Str "t0k")));
                   HlsNew (made page0);
                   HlsLoadSource (made page0) "https://cdn.example/private.m3u8";
                   HlsAttachMedia (made page0);
                   HlsOn (made page0) MANIFEST_PARSED;
                   HlsOn (made page0) ERROR])%list
  ∧ children (container p1) = children (container page0)
  ∧ "loading" ∉ classList (container p1).
Proof.
  apply (loadVimeo_with_token host_private page0 adapter0 [UpdateDuration]
           "76979871" "https://cdn.example/private.m3u8" (Str "t0k")
           (Error "Failed to fetch")).
  - reflexivity.
  - reflexivity.
  - reflexivity.
  - discriminate.
  - reflexivity.
  - vm_compute. reflexivity.
  - vm_compute. reflexivity.
Defined.

(** X20. When the player page fails and the API, asked with a token,
    fails as well or names no HLS file, [loadVimeo] shows one error panel
    titled [Failed to load Vimeo video], with the message of the failure
    of the API or [No HLS stream available for this video], and leaves the
    adapter untouched. *)
Theorem loadVimeo_api_gives_no_source (host : Host) (p : Page) (vimeoId msg : string)
        (token : jsval) (e : exn) :
  let videoId := VimeoHLSPlayer.or_else (VimeoAPI.extractVideoId vimeoId) vimeoId in
  snd (VimeoAPI.getHLSFromPlayer host videoId) = Throw e →
  truthy token = true →
  snd (VimeoAPI.getVideoData host videoId token) = Throw (Error msg)
  ∨ (∃ v, snd (VimeoAPI.getVideoData host videoId token) = Ok v
          ∧ truthy v = false
          ∧ msg = "No HLS stream available for this video") →
  let p1 := snd (VimeoHLSPlayer.loadVimeo host vimeoId token p) in
  children (container p1) =
    (children (container p) ++ [ErrorElement "Failed to load Vimeo video" msg])%list
  ∧ player p1 = player p
  ∧ made p1 = made p.
Proof.
  intros videoId Hfail Htok Hapi p1. subst p1.
  pose proof (getHLSFromPlayer_fails host videoId e Hfail) as Hfx.
  unfold VimeoHLSPlayer.loadVimeo. fold videoId. runp.
  rewrite Hfail, Hfx. runp. rewrite Htok.
  destruct (VimeoAPI.getVideoData host videoId token) as [es [v|e']]; cbn [snd] in Hapi;
    runp.
  - destruct Hapi as [Hapi | (v' & Hv & Ht & ->)]; [discriminate Hapi|].
    inversion Hv; subst v'. rewrite Ht. runp. auto.
  - destruct Hapi as [Hapi | (v' & Hv & _)]; [|discriminate Hv].
    inversion Hapi; subst e'. cbn [message_of]. auto.
Qed.

Lemma loadVimeo_api_gives_no_source_witness :
  let p1 := snd (VimeoHLSPlayer.loadVimeo host_private "76979871" (Str "other") page0) in
  children (container p1) =
    (children (container page0)
     ++ [ErrorElement "Failed to load Vimeo video"
           "No HLS stream available for this video"])%list
  ∧ player p1 = player page0
  ∧ made p1 = made page0.
Proof.
  apply (loadVimeo_api_gives_no_source host_private page0 "76979871"
           "No HLS stream available for this video" (Str "other")
           (Error "Failed to fetch")).
  - reflexivity.
  - reflexivity.
  - right. exists Undefined. repeat split.
Defined.

(** ** What the constructor of the facade does *)

Lemma facade_call {A} (m : M World A) (p : Page) (pl : HLSPlayer) (a : A) (w1 : World) :
  player p = Some pl →
  m {| self := pl; out := log p; engines := made p |} = (Ok a, w1) →
  VimeoHLSPlayer.on_player m p =
  (Ok a, {| container := container p; settings := settings p;
            player := Some (self w1); overlay := overlay p;
            videoElement := videoElement p; log := out w1; made := engines w1 |}).
Proof. intros Hp Hm. rewrite (on_player_run _ _ pl Hp), Hm. reflexivity. Qed.

(** The next step is a subscription of the facade to an event whose
    array is [cbs]. *)
Ltac facade_on cbs :=
  match goal with
  | |- context [(VimeoHLSPlayer.on_player (HLSPlayer.on ?ev ?cb) ≫= ?k)
                  {| container := ?c; settings := ?s; player := Some ?pl;
                     overlay := ?ov; videoElement := ?ve; log := ?lg; made := ?md |}] =>
      rewrite (bind_returns (VimeoHLSPlayer.on_player (HLSPlayer.on ev cb)) k _ _ tt
                 (facade_call (HLSPlayer.on ev cb)
                    {| container := c; settings := s; player := Some pl;
                       overlay := ov; videoElement := ve; log := lg; made := md |}
                    pl tt _ eq_refl
                    (on_run ev cb cbs {| self := pl; out := lg; engines := md |} eq_refl)));
      cbn [self video hls options listeners out engines
           container settings player overlay videoElement log made]
  end.

(** [new VideoControls(player, container)] on an adapter as constructed:
    the overlay subscribes to five events and to none of [error]. *)
Lemma new_VideoControls_run (p : Page) (v : Video) (opts : Options) :
  player p = Some (HLSPlayer.construct v opts) →
  ∃ pl, VimeoHLSPlayer.new_VideoControls p =
        (Ok tt,
         {| container := VimeoHLSPlayer.appendChild ControlsElement (container p);
            settings := settings p; player := Some pl;
            overlay := Some {| hideTimeout := false |};
            videoElement := videoElement p; log := log p; made := made p |})
        ∧ hls pl = None
        ∧ listeners pl !! "error" = Some []
        ∧ listeners pl !! "loadedmetadata" = Some [UpdateDuration].
Proof.
  intros Hp. destruct p as [k o pl' ov ve l m]. cbn in Hp. subst pl'.
  unfold VimeoHLSPlayer.new_VideoControls.
  match goal with
  | |- context [(VimeoHLSPlayer.set_container ?f ≫= ?k0) ?q] =>
      rewrite (bind_returns (VimeoHLSPlayer.set_container f) k0 q _ tt eq_refl)
  end.
  match goal with
  | |- context [(VimeoHLSPlayer.on_player ?c ≫= ?k0) ?q] =>
      rewrite (bind_returns (VimeoHLSPlayer.on_player c) k0 q _ tt
                 (facade_call c q _ tt _ eq_refl eq_refl))
  end.
  cbn [self video hls options listeners out engines
       container settings player overlay videoElement log made].
  facade_on (@nil callback).
  facade_on (@nil callback).
  facade_on (@nil callback).
  facade_on (@nil callback).
  facade_on (@nil callback).
  facade_on [UpdatePlayButton true].
  facade_on [UpdatePlayButton false].
  eexists. split; [reflexivity|]. cbn [hls listeners HLSPlayer.construct].
  split; [reflexivity|]. split; vm_compute; reflexivity.
Qed.

(** [initialize] up to the load: the container is set up, the element and
    the adapter are created, the overlay is attached when asked for; no
    call has been made, no engine exists and [error] has no listener. *)
Lemma initialize_run (host : Host) (p0 : Page) :
  ∃ p3 pl,
    VimeoHLSPlayer.initialize host p0 =
      async ((if truthy (hlsUrl (settings p0))
              then await (VimeoHLSPlayer.loadHLS host (hlsUrl (settings p0)))
              else if truthy (vimeoId (settings p0))
              then await (VimeoHLSPlayer.loadVimeo host (string_of (vimeoId (settings p0)))
                            (vimeoAccessToken (settings p0)))
              else ret tt) ;;
             VimeoHLSPlayer.on_player (HLSPlayer.on "error" ShowLoadError)) p3
    ∧ player p3 = Some pl ∧ hls pl = None
    ∧ listeners pl !! "error" = Some []
    ∧ listeners pl !! "loadedmetadata" =
        Some (if po_controls (settings p0) then [UpdateDuration] else [])
    ∧ settings p3 = settings p0 ∧ log p3 = log p0 ∧ made p3 = made p0
    ∧ children (container p3) =
        (children (container p0)
         ++ VideoElement :: (if po_controls (settings p0) then [ControlsElement] else []))%list
    ∧ classList (container p3) =
        classList (VimeoHLSPlayer.classList_add "vimeo-hls-player" (container p0))
    ∧ overlay p3 = (if po_controls (settings p0) then Some {| hideTimeout := false |}
                    else overlay p0)
    ∧ videoElement p3 = true
    ∧ position (container p3) =
        (if truthy (aspectRatio (settings p0)) then Some "relative"
         else position (container p0)).
Proof.
  destruct p0 as [k o pl0 ov ve l m].
  unfold VimeoHLSPlayer.initialize, VimeoHLSPlayer.setupContainer,
    VimeoHLSPlayer.createVideoElement.
  cbn [settings]. runp.
  destruct (truthy (aspectRatio o)); runp; destruct (po_controls o); runp.
  all: try match goal with
    | |- context [VimeoHLSPlayer.new_VideoControls ?q] =>
        let pl := fresh "pl" in
        let Hrun := fresh "Hrun" in
        destruct (new_VideoControls_run q _ _ eq_refl) as (pl & Hrun & ? & ? & ?);
        rewrite Hrun; runp
    end.
  all: eexists _, _; split; [reflexivity|].
  all: cbn [container settings player overlay videoElement log made
            children classList position
            VimeoHLSPlayer.appendChild VimeoHLSPlayer.aspect_box
            hls listeners HLSPlayer.construct].
  all: rewrite <- ?app_assoc; repeat split; try assumption; try reflexivity.
Qed.

(** X21. Constructed with neither [hlsUrl] nor [vimeoId], the facade
    makes no call at all and creates no engine: it appends the media
    element, and the overlay when asked for, and subscribes its error
    panel to [error]. *)
Theorem construct_without_source (host : Host) (k : Container) (o : PlaybackOptions)
        (l : list effect) (p : Page) :
  truthy (hlsUrl o) = false → truthy (vimeoId o) = false →
  VimeoHLSPlayer.construct host (Some k) o l = Ok p →
  log p = l ∧ made p = 0%nat
  ∧ children (container p) =
      (children k ++ VideoElement :: (if po_controls o then [ControlsElement] else []))%list
  ∧ ∃ pl, player p = Some pl ∧ hls pl = None
          ∧ listeners pl !! "error" = Some [ShowLoadError].
Proof.
  intros Hh Hv H. unfold VimeoHLSPlayer.construct in H. inversion H; subst p; clear H.
  match goal with
  | |- context [VimeoHLSPlayer.initialize host ?q] =>
      destruct (initialize_run host q)
        as (p3 & pl & Heq & Hp & Hhls & Herr & _ & _ & Hlog & Hmade & Hch & _)
  end.
  rewrite Heq. cbn [settings container log made] in *. rewrite Hh, Hv.
  unfold async. rewrite (bind_returns (ret tt) _ p3 p3 tt eq_refl).
  rewrite (facade_call _ p3 pl tt _ Hp
             (on_run "error" ShowLoadError []
                {| self := pl; out := log p3; engines := made p3 |} Herr)).
  cbn [snd log made container player self out engines hls listeners].
  repeat split; try assumption.
  eexists. split; [reflexivity|]. cbn [hls listeners].
  split; [exact Hhls | apply lookup_insert_eq].
Qed.

Lemma construct_without_source_witness :
  log page0 = [] ∧ made page0 = 0%nat
  ∧ children (container page0) =
      (children container0
       ++ VideoElement :: (if po_controls defaults then [ControlsElement] else []))%list
  ∧ ∃ pl, player page0 = Some pl ∧ hls pl = None
          ∧ listeners pl !! "error" = Some [ShowLoadError].
Proof.
  apply (construct_without_source host0 container0 defaults [] page0).
  - reflexivity.
  - reflexivity.
  - unfold VimeoHLSPlayer.construct, page0. reflexivity.
Defined.

Lemma loading_added (k : Container) :
  "loading" ∈ classList (VimeoHLSPlayer.classList_add "loading" k).
Proof.
  unfold VimeoHLSPlayer.classList_add. cbn [classList].
  case_bool_decide; [assumption|]. rewrite elem_of_app, elem_of_cons.
  right. now left.
Qed.

(** X22. The error panel of the facade is subscribed after the first
    load. Constructed with an [hlsUrl] on a platform with neither the
    engine nor native support, the facade writes the failure to the
    console and passes it to the [error] listeners, of which there is none
    yet: no listener is called, no error panel is shown, and the container
    stays marked as loading. *)
Theorem first_load_failure_not_shown (host : Host) (k : Container)
        (o : PlaybackOptions) (l : list effect) (p : Page) :
  Hls_isSupported host = false → canPlayType_hls host = false →
  truthy (hlsUrl o) = true →
  VimeoHLSPlayer.construct host (Some k) o l = Ok p →
  log p = (l ++ [ConsoleError "HLS is not supported in this browser"])%list
  ∧ children (container p) =
      (children k ++ VideoElement :: (if po_controls o then [ControlsElement] else []))%list
  ∧ "loading" ∈ classList (container p)
  ∧ ∃ pl, player p = Some pl ∧ listeners pl !! "error" = Some [ShowLoadError].
Proof.
  intros Hs Hn Ht H. unfold VimeoHLSPlayer.construct in H. inversion H; subst p; clear H.
  match goal with
  | |- context [VimeoHLSPlayer.initialize host ?q] =>
      destruct (initialize_run host q)
        as (p3 & pl & Heq & Hp & Hhls & Herr & Hmeta & _ & Hlog & Hmade & Hch & _)
  end.
  rewrite Heq. cbn [settings container log made] in *. rewrite Ht.
  destruct p3 as [k3 o3 pl3 ov3 ve3 l3 m3].
  cbn [player log made container] in Hp, Hlog, Hmade, Hch. subst pl3 l3 m3.
  unfold VimeoHLSPlayer.loadHLS. unfold async at 1. runp.
  rewrite (on_player_run _ _ pl) by reflexivity.
  unfold HLSPlayer.loadSource. rewrite Ht, Hs, Hn. cbn [negb]. run.
  rewrite (emit_own host "error" _ []) by (cbn [self listeners]; auto).
  cbn [map fst snd]. unfold add_out. cbn [self out engines]. runp.
  match goal with
  | |- context [VimeoHLSPlayer.on_player (HLSPlayer.on "loadedmetadata" ?cb)
                  {| container := ?c; settings := ?s; player := Some ?pl1;
                     overlay := ?ov; videoElement := ?ve; log := ?lg; made := ?md |}] =>
      rewrite (facade_call (HLSPlayer.on "loadedmetadata" cb)
                 {| container := c; settings := s; player := Some pl1;
                    overlay := ov; videoElement := ve; log := lg; made := md |}
                 pl1 tt _ eq_refl
                 (on_run "loadedmetadata" cb _
                    {| self := pl1; out := lg; engines := md |} Hmeta))
  end.
  runp.
  match goal with
  | |- context [VimeoHLSPlayer.on_player (HLSPlayer.on "error" ?cb)
                  {| container := ?c; settings := ?s; player := Some ?pl1;
                     overlay := ?ov; videoElement := ?ve; log := ?lg; made := ?md |}] =>
      assert (Herr1 : listeners pl1 !! "error" = Some [])
        by (cbn [listeners]; rewrite lookup_insert_ne by discriminate; exact Herr);
      rewrite (facade_call (HLSPlayer.on "error" cb)
                 {| container := c; settings := s; player := Some pl1;
                    overlay := ov; videoElement := ve; log := lg; made := md |}
                 pl1 tt _ eq_refl
                 (on_run "error" cb []
                    {| self := pl1; out := lg; engines := md |} Herr1))
  end.
  cbn [snd log container player self out children VimeoHLSPlayer.classList_add].
  rewrite app_nil_r.
  split; [reflexivity|]. split; [exact Hch|]. split; [apply loading_added|].
  eexists. split; [reflexivity|]. cbn [listeners]. apply lookup_insert_eq.
Qed.

Lemma first_load_failure_not_shown_witness :
  let p := snd (VimeoHLSPlayer.initialize host_unsupported
                  {| container := container0; settings := with_hlsUrl0;
                     player := None; overlay := None; videoElement := false;
                     log := []; made := 0 |}) in
  log p = ([] ++ [ConsoleError "HLS is not supported in this browser"])%list
  ∧ children (container p) =
      (children container0
       ++ VideoElement :: (if po_controls with_hlsUrl0 then [ControlsElement] else []))%list
  ∧ "loading" ∈ classList (container p)
  ∧ ∃ pl, player p = Some pl ∧ listeners pl !! "error" = Some [ShowLoadError].
Proof.
  apply (first_load_failure_not_shown host_unsupported container0 with_hlsUrl0 []).
  - reflexivity.
  - reflexivity.
  - reflexivity.
  - reflexivity.
Defined.

(** ** What [destroy()] of the facade leaves behind *)

Lemma filter_ne_absent {A} `{EqDecision A} (x : A) (l : list A) :
  x ∉ l → filter (λ y, y ≠ x) l = l.
Proof.
  induction l as [| y l IH]; intros Hn; [reflexivity|].
  rewrite not_elem_of_cons in Hn. destruct Hn as [Hy Hn].
  rewrite filter_cons, decide_True by congruence. now rewrite IH.
Qed.

Lemma filter_ne_last {A} `{EqDecision A} (x : A) (l : list A) :
  x ∉ l → filter (λ y, y ≠ x) (l ++ [x])%list = l.
Proof.
  intros Hn. rewrite filter_app, filter_ne_absent by exact Hn.
  rewrite filter_cons, decide_False by tauto. now rewrite filter_nil, app_nil_r.
Qed.


(** X24. Constructing and destroying is not a round trip for the
    container. For a facade constructed without a source on a container
    that holds no media element and no overlay and is not yet marked,
    [destroy()] gives back the children and the class list, and makes no
    call; the inline style that [setupContainer] wrote for the aspect
    ratio stays. *)
Theorem construct_then_destroy (host : Host) (k : Container) (o : PlaybackOptions)
        (l : list effect) (p : Page) :
  truthy (hlsUrl o) = false → truthy (vimeoId o) = false →
  VideoElement ∉ children k → ControlsElement ∉ children k →
  "vimeo-hls-player" ∉ classList k →
  VimeoHLSPlayer.construct host (Some k) o l = Ok p →
  let p' := snd (VimeoHLSPlayer.destroy p) in
  children (container p') = children k
  ∧ classList (container p') = classList k
  ∧ log p' = l
  ∧ position (container p') =
      (if truthy (aspectRatio o) then Some "relative" else position k).
Proof.
  intros Hh Hv Hnv Hnc Hnm H p'. subst p'.
  unfold VimeoHLSPlayer.construct in H. inversion H; subst p; clear H.
  match goal with
  | |- context [VimeoHLSPlayer.initialize host ?q] =>
      destruct (initialize_run host q)
        as (p3 & pl & Heq & Hp & Hhls & Herr & _ & _ & Hlog & Hmade & Hch & Hcl
            & Hov & Hve & Hpos)
  end.
  rewrite Heq. cbn [settings container log made overlay] in *. rewrite Hh, Hv.
  unfold async. rewrite (bind_returns (ret tt) _ p3 p3 tt eq_refl).
  rewrite (facade_call _ p3 pl tt _ Hp
             (on_run "error" ShowLoadError []
                {| self := pl; out := log p3; engines := made p3 |} Herr)).
  cbn [snd]. rewrite facade_destroy_run. cbn [snd]. unfold destroyed.
  cbn [container overlay videoElement player log self out hls].
  rewrite Hve, Hov, Hhls, app_nil_r.
  assert (Hcl' : classList (container p3) = (classList k ++ ["vimeo-hls-player"])%list).
  { rewrite Hcl. unfold VimeoHLSPlayer.classList_add. cbn [classList].
    now rewrite bool_decide_eq_false_2 by exact Hnm. }
  destruct (po_controls o);
    unfold VimeoHLSPlayer.classList_remove, VimeoHLSPlayer.remove_child;
    cbn [children classList position]; rewrite Hch, Hcl', Hpos.
  - rewrite (filter_ne_last "vimeo-hls-player") by exact Hnm.
    change (children k ++ [VideoElement; ControlsElement])%list
      with (children k ++ [VideoElement] ++ [ControlsElement])%list.
    rewrite app_assoc, (filter_ne_last ControlsElement).
    + rewrite (filter_ne_last VideoElement) by exact Hnv. auto.
    + rewrite elem_of_app, elem_of_cons, elem_of_nil. intros [? | [? | []]];
        [contradiction | discriminate].
  - rewrite (filter_ne_last "vimeo-hls-player") by exact Hnm.
    rewrite (filter_ne_last VideoElement) by exact Hnv. auto.
Qed.

Lemma construct_then_destroy_witness :
  let p' := snd (VimeoHLSPlayer.destroy page0) in
  children (container p') = children container0
  ∧ classList (container p') = classList container0
  ∧ log p' = []
  ∧ position (container p') =
      (if truthy (aspectRatio defaults) then Some "relative" else position container0).
Proof.
  apply (construct_then_destroy host0 container0 defaults [] page0).
  - reflexivity.
  - reflexivity.
  - apply not_elem_of_nil.
  - apply not_elem_of_nil.
  - apply not_elem_of_nil.
  - unfold VimeoHLSPlayer.construct, page0. reflexivity.
Defined.

(** ** The auto-hide of the overlay *)

Ltac runc :=
  repeat (cbv beta delta
            [mbind M_bind mret M_ret bind ret throw get modify
             Controls.set_player Controls.set_container Controls.set_view
             Controls.set_hideTimeout Controls.set_timeouts Controls.set_drags
             Controls.setTimeout Controls.clearTimeout] iota;
          cbn [fst snd Controls.player Controls.container Controls.view
               Controls.hideTimeout Controls.timeouts Controls.next_timeout
               Controls.drags]).

Lemma stopAutoHide_run (s : Controls.State) :
  timers_in_order s →
  ∃ t, Controls.stopAutoHide s =
       (Ok tt,
        {| Controls.player := Controls.player s;
           Controls.container := Controls.container s;
           Controls.view := Controls.view s;
           Controls.hideTimeout := t;
           Controls.timeouts := [];
           Controls.next_timeout := Controls.next_timeout s;
           Controls.drags := Controls.drags s |}).
Proof.
  intros [Ht _]. destruct s as [w k v h ts n d].
  cbn [Controls.timeouts Controls.hideTimeout] in Ht.
  unfold Controls.stopAutoHide. runc.
  destruct Ht as [-> | (i & -> & ->)].
  - destruct h as [[| i]|]; runc; eexists; reflexivity.
  - runc. rewrite filter_cons, decide_False, filter_nil by tauto.
    eexists. reflexivity.
Qed.

Lemma startAutoHide_run (s : Controls.State) :
  timers_in_order s →
  Controls.startAutoHide s =
  (Ok tt,
   {| Controls.player := Controls.player s;
      Controls.container := Controls.container s;
      Controls.view := Controls.view s;
      Controls.hideTimeout := Some (Controls.next_timeout s);
      Controls.timeouts := [Controls.next_timeout s];
      Controls.next_timeout := S (Controls.next_timeout s);
      Controls.drags := Controls.drags s |}).
Proof.
  intros Hs. destruct (stopAutoHide_run s Hs) as [t Hstop].
  unfold Controls.startAutoHide. rewrite (bind_returns _ _ _ _ _ Hstop).
  runc. reflexivity.
Qed.

Lemma showControls_run (s : Controls.State) :
  timers_in_order s →
  Controls.showControls s =
  (Ok tt,
   {| Controls.player := Controls.player s;
      Controls.container :=
        VimeoHLSPlayer.classList_add visible (Controls.container s);
      Controls.view := Controls.view s;
      Controls.hideTimeout := Some (Controls.next_timeout s);
      Controls.timeouts := [Controls.next_timeout s];
      Controls.next_timeout := S (Controls.next_timeout s);
      Controls.drags := Controls.drags s |}).
Proof.
  intros Hs. unfold Controls.showControls.
  rewrite (bind_returns get _ s s s eq_refl).
  match goal with
  | |- context [(modify ?f ≫= ?k) s] =>
      rewrite (bind_returns (modify f) k s (f s) tt eq_refl)
  end.
  assert (Hs1 : timers_in_order
                  (Controls.set_container
                     (VimeoHLSPlayer.classList_add "vimeo-hls-controls-visible"
                        (Controls.container s)) s)) by exact Hs.
  destruct (stopAutoHide_run _ Hs1) as [t Hstop].
  rewrite (bind_returns _ _ _ _ _ Hstop).
  rewrite startAutoHide_run.
  - reflexivity.
  - split; [now left | exact (proj2 Hs)].
Qed.

Lemma timers_after_start (s : Controls.State) (w : World) (k : Container)
      (v : Controls.View) (d : nat) :
  timers_in_order s →
  timers_in_order
    {| Controls.player := w; Controls.container := k; Controls.view := v;
       Controls.hideTimeout := Some (Controls.next_timeout s);
       Controls.timeouts := [Controls.next_timeout s];
       Controls.next_timeout := S (Controls.next_timeout s);
       Controls.drags := d |}.
Proof.
  intros [_ Hn]. split; cbn; [|lia].
  right. destruct (Controls.next_timeout s) as [| n]; [lia|]. eauto.
Qed.

Lemma hideControls_run (s : Controls.State) :
  ∃ k, Controls.hideControls s = (Ok tt, Controls.set_container k s).
Proof.
  unfold Controls.hideControls. runc.
  destruct (negb _); eexists; [reflexivity|].
  instantiate (1 := Controls.container s). now destruct s.
Qed.

Lemma timeout_fires_run (id : nat) (s : Controls.State) :
  timers_in_order s →
  ∃ s1, Controls.timeout_fires id s = (Ok tt, s1) ∧ timers_in_order s1
        ∧ (id ∈ Controls.timeouts s → Controls.timeouts s1 = []).
Proof.
  intros [Ht Hn]. unfold Controls.timeout_fires. runc.
  case_bool_decide as Hin.
  - match goal with
    | |- context [Controls.hideControls ?q] =>
        destruct (hideControls_run q) as [k Hk]; rewrite Hk
    end.
    assert (Hf : filter (λ t, t ≠ id) (Controls.timeouts s) = []).
    { destruct Ht as [Ht | (i & Ht & _)]; rewrite Ht in *.
      - reflexivity.
      - apply list_elem_of_singleton in Hin. subst id.
        now rewrite filter_cons, decide_False, filter_nil by tauto. }
    eexists. split; [reflexivity|]. cbn. rewrite Hf.
    split; [split; [now left | exact Hn] | reflexivity].
  - eexists. split; [reflexivity|]. split; [split; assumption | contradiction].
Qed.

(** Every event leaves the timeouts in order. *)
Lemma deliver_in_order (e : Controls.event) (s : Controls.State) :
  timers_in_order s →
  ∃ s1, Controls.deliver e s = (Ok tt, s1) ∧ timers_in_order s1.
Proof.
  intros Hs. destruct e as [| | | | id | b |]; cbn [Controls.deliver].
  - rewrite (showControls_run s Hs). eexists. split; [reflexivity|].
    now apply timers_after_start.
  - destruct (hideControls_run s) as [k Hk]. rewrite Hk.
    eexists. split; [reflexivity | exact Hs].
  - rewrite (startAutoHide_run s Hs). eexists. split; [reflexivity|].
    now apply timers_after_start.
  - destruct (stopAutoHide_run s Hs) as [t Ht]. rewrite Ht.
    eexists. split; [reflexivity|]. split; [now left | exact (proj2 Hs)].
  - destruct (timeout_fires_run id s Hs) as (s1 & H1 & H2 & _). eauto.
  - eexists. split; [reflexivity | exact Hs].
  - unfold Controls.destroy.
    rewrite (bind_returns get _ s s s eq_refl).
    match goal with
    | |- context [(modify ?f ≫= ?k) s] =>
        rewrite (bind_returns (modify f) k s (f s) tt eq_refl)
    end.
    match goal with
    | |- context [Controls.stopAutoHide ?q] =>
        destruct (stopAutoHide_run q Hs) as [t Ht]; rewrite Ht
    end.
    eexists. split; [reflexivity|]. split; [now left | exact (proj2 Hs)].
Qed.

Lemma after_in_order (es : list Controls.event) (s : Controls.State) :
  timers_in_order s →
  ∃ s1, forEach Controls.deliver es s = (Ok tt, s1) ∧ timers_in_order s1.
Proof.
  revert s. induction es as [| e es IH]; intros s Hs.
  - exists s. split; [reflexivity | exact Hs].
  - rewrite forEach_cons. destruct (deliver_in_order e s Hs) as (s1 & H1 & Hs1).
    rewrite H1. now apply IH.
Qed.

Lemma create_in_order (w : World) (k : Container) :
  timers_in_order (Controls.create w k).
Proof. split; cbn; [now left | lia]. Qed.

(** X25. At most one timeout of the auto-hide is pending. Whatever
    sequence of mouse moves, mouse leaves, [play] and [pause] events,
    timeouts running out, changes of the element and calls of [destroy]
    reaches an overlay, no listener throws, at most one timeout is pending
    afterwards, and it is the one [hideTimeout] holds. *)
Theorem one_hide_timeout (w : World) (k : Container) (es : list Controls.event) :
  fst (forEach Controls.deliver es (Controls.create w k)) = Ok tt
  ∧ (length (Controls.timeouts (after es w k)) ≤ 1)%nat
  ∧ (∀ id, id ∈ Controls.timeouts (after es w k) →
           Controls.hideTimeout (after es w k) = Some id).
Proof.
  unfold after.
  destruct (after_in_order es _ (create_in_order w k)) as (s & Hrun & [Ht _]).
  rewrite Hrun. cbn [fst snd]. split; [reflexivity|].
  destruct Ht as [-> | (n & -> & ->)].
  - split; [cbn; lia|]. intros id Hid. now apply elem_of_nil in Hid.
  - split; [cbn; lia|]. intros id Hid. apply list_elem_of_singleton in Hid.
    now subst id.
Qed.

(** X26. [destroy()] of the overlay removes its element and cancels the
    pending timeout, but not the listeners on the container: a mouse move
    over the container afterwards marks it as showing the controls and
    starts a timeout again. *)
Theorem destroy_keeps_container_listeners (w : World) (k : Container)
        (es : list Controls.event) :
  let s1 := snd (Controls.destroy (after es w k)) in
  let s2 := snd (Controls.deliver Controls.MouseMove s1) in
  (ControlsElement ∉ children (Controls.container s1))
  ∧ Controls.timeouts s1 = []
  ∧ visible ∈ classList (Controls.container s2)
  ∧ Controls.timeouts s2 = [Controls.next_timeout s1].
Proof.
  intros s1 s2. subst s2 s1. unfold after.
  destruct (after_in_order es _ (create_in_order w k)) as (s & Hrun & Hs).
  rewrite Hrun. cbn [snd]. unfold Controls.destroy.
  rewrite (bind_returns get _ s s s eq_refl).
  match goal with
  | |- context [(modify ?f ≫= ?k0) s] =>
      rewrite (bind_returns (modify f) k0 s (f s) tt eq_refl)
  end.
  match goal with
  | |- context [Controls.stopAutoHide ?q] =>
      destruct (stopAutoHide_run q Hs) as [t Ht]; rewrite Ht
  end.
  cbn [snd Controls.container Controls.timeouts Controls.deliver].
  rewrite showControls_run by (split; [now left | exact (proj2 Hs)]).
  cbn [snd Controls.container Controls.timeouts Controls.next_timeout
       Controls.set_container].
  split; [|split; [reflexivity|split; [|reflexivity]]].
  - unfold VimeoHLSPlayer.remove_child. cbn [children].
    rewrite list_elem_of_filter. tauto.
  - unfold VimeoHLSPlayer.classList_add, visible. cbn [classList].
    case_bool_decide; [assumption|]. rewrite elem_of_app, elem_of_cons.
    right. now left.
Qed.

(** X27. The cycle of the auto-hide: a mouse move over the container
    shows the controls and starts the one timeout; when that runs out the
    controls are hidden if the element is playing, and stay when it is
    paused. *)
Theorem controls_hide_when_playing (w : World) (k : Container)
        (es : list Controls.event) :
  let s := after es w k in
  let s1 := snd (Controls.showControls s) in
  let s2 := snd (Controls.timeout_fires (Controls.next_timeout s) s1) in
  visible ∈ classList (Controls.container s1)
  ∧ Controls.timeouts s1 = [Controls.next_timeout s]
  ∧ Controls.timeouts s2 = []
  ∧ (visible ∈ classList (Controls.container s2)
     ↔ paused (video (self (Controls.player s))) = true).
Proof.
  intros s s1 s2. subst s2 s1 s. unfold after.
  destruct (after_in_order es _ (create_in_order w k)) as (s & Hrun & Hs).
  rewrite Hrun. cbn [snd]. rewrite (showControls_run s Hs). cbn [snd].
  assert (Hin : visible ∈ classList
                  (VimeoHLSPlayer.classList_add visible (Controls.container s))).
  { unfold VimeoHLSPlayer.classList_add. cbn [classList].
    case_bool_decide; [assumption|]. rewrite elem_of_app, elem_of_cons.
    right. now left. }
  cbn [Controls.container Controls.timeouts].
  split; [exact Hin|]. split; [reflexivity|].
  unfold Controls.timeout_fires, Controls.hideControls. runc.
  rewrite bool_decide_eq_true_2 by (apply list_elem_of_singleton; reflexivity).
  runc. rewrite filter_cons, decide_False, filter_nil by tauto.
  destruct (paused (video (self (Controls.player s)))); cbn [negb]; runc.
  - split; [reflexivity|]. tauto.
  - split; [reflexivity|].
    unfold VimeoHLSPlayer.classList_remove. cbn [classList].
    rewrite list_elem_of_filter. unfold visible. split; [tauto | discriminate].
Qed.

(** ** The scrubber, the volume slider and the buffered part *)

Lemma Qc_fraction (a w : Qc) :
  (0 ≤ a)%Qc → (a ≤ w)%Qc → (0 < w)%Qc → (0 ≤ a / w)%Qc ∧ (a / w ≤ 1)%Qc.
Proof.
  intros Ha Haw Hw. unfold Qcdiv.
  pose proof (Qcinv_pos w Hw) as Hi. apply Qclt_le_weak in Hi.
  split.
  - now apply Qcmult_nonneg_nonneg.
  - rewrite <- (Qcmult_inv_r w).
    + now apply Qcmult_le_mono_nonneg_r.
    + intros ->. vm_compute in Hw. discriminate Hw.
Qed.

Lemma Qc_offset (x left w : Qc) :
  (left ≤ x)%Qc → (x ≤ left + w)%Qc → (0 ≤ x - left)%Qc ∧ (x - left ≤ w)%Qc.
Proof.
  intros Hl Hr. split.
  - unfold Qcminus. apply (proj1 (Qcle_minus_iff left x)). exact Hl.
  - apply (proj2 (Qcplus_le_mono_r (x - left) w left)).
    replace (x - left + left)%Qc with x by ring.
    now rewrite (Qcplus_comm w left).
Qed.

Lemma Qc_pos_ne (w : Qc) : (0 < w)%Qc → w ≠ 0%Qc.
Proof. intros Hw ->. vm_compute in Hw. discriminate Hw. Qed.

Lemma div_nonzero (a w : Qc) : w ≠ 0%Qc → Num.div (Fin a) (Fin w) = Fin (a / w)%Qc.
Proof. intros Hw. unfold Num.div. now rewrite bool_decide_eq_false_2. Qed.

(** X28. A click on the progress bar seeks inside the stream: for a click
    between the left and the right edge of a bar of positive width, on a
    stream of finite duration, the new position lies between 0 and the
    duration; it is 0 at the left edge and the duration at the right
    edge. *)
Theorem progress_click_within_duration (s : Controls.State) (x left width d : Qc) :
  duration (video (self (Controls.player s))) = Fin d →
  (0 ≤ d)%Qc → (0 < width)%Qc → (left ≤ x)%Qc → (x ≤ left + width)%Qc →
  let s1 := snd (Controls.handleProgressClick (Fin x) (Fin left) (Fin width) s) in
  ∃ t : Qc,
    currentTime (video (self (Controls.player s1))) = Fin t
    ∧ (0 ≤ t)%Qc ∧ (t ≤ d)%Qc
    ∧ (x = left → t = 0%Qc)
    ∧ (x = (left + width)%Qc → t = d).
Proof.
  intros Hd Hd0 Hw Hl Hr s1. subst s1.
  destruct (Qc_offset x left width Hl Hr) as [Ho0 Ho1].
  destruct (Qc_fraction (x - left) width Ho0 Ho1 Hw) as [Hf0 Hf1].
  unfold Controls.handleProgressClick, Controls.on_player, HLSPlayer.getDuration,
    HLSPlayer.seek.
  run. runc. rewrite Hd. cbn [Adapter.sub].
  rewrite div_nonzero by now apply Qc_pos_ne. cbn [Num.mul].
  cbn [self video HLSPlayer.with_currentTime currentTime].
  eexists. split; [reflexivity|]. repeat split.
  - now apply Qcmult_nonneg_nonneg.
  - rewrite <- (Qcmult_1_l d) at 2. now apply Qcmult_le_mono_nonneg_r.
  - intros ->. replace (left - left)%Qc with 0%Qc by ring.
    unfold Qcdiv. now rewrite !Qcmult_0_l.
  - intros ->. replace (left + width - left)%Qc with width by ring.
    unfold Qcdiv. rewrite Qcmult_inv_r by now apply Qc_pos_ne.
    apply Qcmult_1_l.
Qed.

Lemma progress_click_within_duration_witness :
  let s1 := snd (Controls.handleProgressClick (Fin (qz 250 1)) (Fin (qz 100 1))
                   (Fin (qz 600 1)) controls_loaded) in
  ∃ t : Qc,
    currentTime (video (self (Controls.player s1))) = Fin t
    ∧ (0 ≤ t)%Qc ∧ (t ≤ Qc_of_Z 120)%Qc
    ∧ (qz 250 1 = qz 100 1 → t = 0%Qc)
    ∧ (qz 250 1 = (qz 100 1 + qz 600 1)%Qc → t = Qc_of_Z 120).
Proof.
  apply (progress_click_within_duration controls_loaded (qz 250 1) (qz 100 1)
           (qz 600 1) (Qc_of_Z 120)).
  - reflexivity.
  - intros H. vm_compute in H. discriminate H.
  - vm_compute. reflexivity.
  - intros H. vm_compute in H. discriminate H.
  - intros H. vm_compute in H. discriminate H.
Defined.




